(** * Rhyl Car Boot site: the status / gallery / hero store and its admin routes

    A shallow embedding of the Express server ([src/unnamed/part_001]) and of
    the refresh timer of the mobile client ([src/unnamed/part_000]).

    - JavaScript values that reach the server are JSON values ([json]);
      [undefined] is the [None] of an [option json].
    - The file system is a finite map from paths to contents, with a set of
      paths on which I/O fails, and a wall clock in milliseconds.
    - [async] functions are sequential code in a state-and-exception monad
      ([M]); a rejected promise is a thrown exception. *)

From Stdlib Require Import ZArith String Ascii List Bool Lia Floats.
From stdpp Require Import gmap strings list fin_maps pretty.

Local Open Scope Z_scope.

(** ** JSON values *)

Local Set Warnings "-register-all".

(** Numbers are kept as integers: the server does no arithmetic on the numbers
    it receives, it only tests their truthiness and compares a length with 10.
    An object is its list of properties in insertion order; the objects the
    server meets come from [JSON.parse], a body parser or an object literal,
    and have no property twice. *)
Inductive json : Type :=
| JNull
| JBool (b : bool)
| JNum (n : Z)
| JStr (s : string)
| JArr (items : list json)
| JObj (props : list (string * json)).

(** A value or [undefined]. *)
Abbreviation jsval := (option json).

Module JS.

(** [o.k] for an object [o] given by its property list. *)
Fixpoint lookup (k : string) (props : list (string * json)) : jsval :=
  match props with
  | [] => None
  | (k', v) :: rest => if String.eqb k k' then Some v else lookup k rest
  end.

(** [o.k = v]: an existing property keeps its place, a new one goes last.
    This is also what the spread [{...o, k: v}] builds. *)
Fixpoint assign (k : string) (v : json) (props : list (string * json))
  : list (string * json) :=
  match props with
  | [] => [(k, v)]
  | (k', v') :: rest =>
      if String.eqb k k' then (k, v) :: rest else (k', v') :: assign k v rest
  end.

(** ToBoolean: [false], [null], [undefined], [0] and [''] are falsy. *)
Definition truthy (v : jsval) : bool :=
  match v with
  | None | Some JNull => false
  | Some (JBool b) => b
  | Some (JNum n) => negb (n =? 0)
  | Some (JStr s) => negb (String.eqb s "")
  | Some (JArr _) | Some (JObj _) => true
  end.

(** [v || d] with a default [d] that is a value. *)
Definition or_else (v : jsval) (d : json) : json :=
  match v with
  | Some x => if truthy v then x else d
  | None => d
  end.

(** [v === s] for a string [s]: no coercion, so only the same string is
    equal to it. *)
Definition strict_eq_string (v : jsval) (s : string) : bool :=
  match v with
  | Some (JStr t) => String.eqb t s
  | _ => false
  end.

(** [v === true]. *)
Definition strict_eq_true (v : jsval) : bool :=
  match v with
  | Some (JBool true) => true
  | _ => false
  end.

End JS.

(** ** Platform functions *)

(** [path.extname] of Node (POSIX flavour): the text from the last dot of the
    last path component, empty when that component has no dot, starts with its
    only dot, or is [..]. *)
Module Path.

Definition slash : ascii := "/"%char.
Definition dot : ascii := "."%char.

Fixpoint drop_slashes (cs : list ascii) : list ascii :=
  match cs with
  | c :: rest => if Ascii.eqb c slash then drop_slashes rest else cs
  | [] => []
  end.

(** The characters up to the first slash. *)
Fixpoint component (cs : list ascii) : list ascii :=
  match cs with
  | c :: rest => if Ascii.eqb c slash then [] else c :: component rest
  | [] => []
  end.

(** [split_dot cs] is [Some (ext, stem)] when [cs] has a dot: [ext] is what
    precedes the first dot of [cs] and [stem] what follows it. On a reversed
    name these are the extension and the rest of the name, both reversed. *)
Fixpoint split_dot (cs : list ascii) : option (list ascii * list ascii) :=
  match cs with
  | c :: rest =>
      if Ascii.eqb c dot then Some ([], rest)
      else match split_dot rest with
           | Some (ext, stem) => Some (c :: ext, stem)
           | None => None
           end
  | [] => None
  end.

(** Works on the reversed name, as Node scans from the end. *)
Definition extname_rev (rev_path : list ascii) : list ascii :=
  let comp := component (drop_slashes rev_path) in
  match split_dot comp with
  | None => []
  | Some (ext, stem) =>
      match stem with
      | [] => []
      | _ =>
          if forallb (Ascii.eqb dot) stem && (length comp =? 2)%nat
          then []
          else ext ++ [dot]
      end
  end.

Definition extname (p : string) : string :=
  string_of_list_ascii
    (rev (extname_rev (rev (list_ascii_of_string p)))).

(** [path.join(dir, name)] for a [name] without separators. *)
Definition join (dir name : string) : string := dir +:+ "/" +:+ name.

End Path.

(** [Date.prototype.toISOString] on a time value in milliseconds since the
    epoch, in the proleptic Gregorian calendar. *)
Module Date.

Definition ms_per_day : Z := 86400000.

(** Year, month and day of a day number counted from 1970-01-01. *)
Definition civil (days : Z) : Z * Z * Z :=
  let z := days + 719468 in
  let era := z / 146097 in
  let doe := z - era * 146097 in
  let yoe := (doe - doe / 1460 + doe / 36524 - doe / 146096) / 365 in
  let doy := doe - (365 * yoe + yoe / 4 - yoe / 100) in
  let mp := (5 * doy + 2) / 153 in
  let d := doy - (153 * mp + 2) / 5 + 1 in
  let m := if mp <? 10 then mp + 3 else mp - 9 in
  let y := yoe + era * 400 in
  (if m <=? 2 then y + 1 else y, m, d).

Fixpoint zeros (n : nat) : string :=
  match n with
  | O => ""
  | S k => "0" +:+ zeros k
  end.

(** Decimal digits of a non-negative number, zero-padded to [width]. *)
Definition pad (width : nat) (n : Z) : string :=
  let digits := pretty (Z.to_N n) in
  zeros (width - String.length digits) +:+ digits.

Definition year_string (y : Z) : string :=
  if (0 <=? y) && (y <=? 9999) then pad 4 y
  else if y <? 0 then "-" +:+ pad 6 (- y)
  else "+" +:+ pad 6 y.

Definition toISOString (t : Z) : string :=
  let '(y, m, d) := civil (t / ms_per_day) in
  let r := t mod ms_per_day in
  year_string y +:+ "-" +:+ pad 2 m +:+ "-" +:+ pad 2 d +:+ "T"
    +:+ pad 2 (r / 3600000) +:+ ":" +:+ pad 2 (r / 60000 mod 60) +:+ ":"
    +:+ pad 2 (r / 1000 mod 60) +:+ "." +:+ pad 3 (r mod 1000) +:+ "Z".

End Date.


(** ** The server's world: disk, I/O faults and clock *)

(** What a file holds, as far as the server can tell. [Document v] is a text
    that [JSON.parse] accepts and turns into [v]; [JSON.stringify (v, null, 2)]
    produces such a text. [Opaque bytes] is anything the server never gets a
    value from: text that [JSON.parse] rejects, or the bytes of an upload. *)
Inductive content : Type :=
| Document (v : json)
| Opaque (bytes : string).

Record world : Type := World {
  files : gmap string content;   (* the disk, by path below [__dirname] *)
  faulty : gset string;          (* paths on which every I/O call fails *)
  clock : Z                      (* [Date.now()] *)
}.

(** The world with another disk. *)
Definition with_files (disk : gmap string content) (w : world) : world :=
  World disk (faulty w) (clock w).

(** The same disk [d] milliseconds later: the clock does not run backwards. *)
Definition later (d : N) (w : world) : world :=
  World (files w) (faulty w) (clock w + Z.of_N d).

Inductive exn : Type :=
| ENOENT (path : string)
| EIO (path : string)
| SyntaxError
| TypeError.

Inductive result (A : Type) : Type :=
| Ok (a : A)
| Thrown (e : exn).
Arguments Ok {A} a.
Arguments Thrown {A} e.

(** An [async] function: it runs from a world to a result and a world. *)
Definition M (A : Type) : Type := world -> result A * world.

Definition ret {A} (a : A) : M A := fun w => (Ok a, w).
Definition throw {A} (e : exn) : M A := fun w => (Thrown e, w).
Definition bind {A B} (m : M A) (k : A -> M B) : M B :=
  fun w => match m w with
           | (Ok a, w') => k a w'
           | (Thrown e, w') => (Thrown e, w')
           end.
Definition try_catch {A} (m : M A) (handler : exn -> M A) : M A :=
  fun w => match m w with
           | (Ok a, w') => (Ok a, w')
           | (Thrown e, w') => handler e w'
           end.

Notation "'let*' x ':=' m 'in' k" := (bind m (fun x => k))
  (at level 10, x name, m at level 100, k at level 200).
Notation "m ';;' k" := (bind m (fun _ => k))
  (at level 100, k at level 200, right associativity).

Arguments ret {A} a w /.
Arguments throw {A} e w /.
Arguments bind {A B} m k w /.
Arguments try_catch {A} m handler w /.

(** [fs.promises]. A call on a faulty path fails and leaves the disk as it
    is; a write replaces the file, an unlink needs the file to be there. *)
Module Fs.

Definition readFile (path : string) : M content :=
  fun w =>
    if decide (path ∈ faulty w) then (Thrown (EIO path), w)
    else match files w !! path with
         | Some c => (Ok c, w)
         | None => (Thrown (ENOENT path), w)
         end.

Definition writeFile (path : string) (c : content) : M unit :=
  fun w =>
    if decide (path ∈ faulty w) then (Thrown (EIO path), w)
    else (Ok tt, with_files (<[path := c]> (files w)) w).

Definition unlink (path : string) : M unit :=
  fun w =>
    if decide (path ∈ faulty w) then (Thrown (EIO path), w)
    else match files w !! path with
         | Some _ => (Ok tt, with_files (delete path (files w)) w)
         | None => (Thrown (ENOENT path), w)
         end.

End Fs.

(** [JSON.parse] of what a file holds, and the text [JSON.stringify] makes
    of a value: parsing that text gives the value back. *)
Definition JSON_parse (data : content) : M json :=
  match data with
  | Document v => ret v
  | Opaque _ => throw SyntaxError
  end.

Definition JSON_stringify (v : json) : content := Document v.

(** [new Date().toISOString()] *)
Definition now_iso : M string := fun w => (Ok (Date.toISOString (clock w)), w).

(** [Date.now()] *)
Definition Date_now : M Z := fun w => (Ok (clock w), w).

Arguments now_iso w /.
Arguments Date_now w /.
Arguments Date.toISOString : simpl never.
Arguments Path.extname : simpl never.

(** ** Requests and responses *)

(** The file sent in the [image] field of a multipart form. *)
Record upload : Type := Upload {
  originalname : string;
  mimetype : string;
  payload : string
}.

(** A request as the routes see it: the parsed body ([express.json],
    [express.urlencoded] or the text fields multer collects; with these
    parsers [req.body] is always a value) and the file of the form's [image]
    field, if it has one. *)
Record request : Type := Request {
  body : json;
  image : option upload
}.

(** [req.file], as multer's disk storage fills it in. *)
Record stored_file : Type := StoredFile {
  file_filename : string;
  file_path : string;
  file_originalname : string
}.

(** What multer hands to [next] when it gives up on a request. *)
Inductive failure : Type :=
| FilterError (message : string)   (* the [Error] a file filter passes to [cb] *)
| MulterError (code : string)
| StorageFailure (e : exn).

(** How a route ends: the handler sends a reply, or the middleware passes an
    error on and Express answers in the handler's place. *)
Inductive outcome : Type :=
| Sent (status : Z) (reply : json)   (* [res.status(status).json(reply)] *)
| Passed (e : failure).              (* [next(e)]: the handler never runs *)

(** The error vocabulary of the specification, as outcomes of the routes. *)
Definition error_reply (message : string) : json := JObj [("error", JStr message)].
Definition Unauthorized : outcome := Sent 401 (error_reply "Unauthorized").
Definition NoFile : outcome := Sent 400 (error_reply "No file uploaded").
Definition GalleryFull : outcome := Sent 400 (error_reply "Gallery full (10 max)").
Definition UploadFailed : outcome := Sent 500 (error_reply "Upload failed").
Definition UpdateFailed : outcome := Sent 500 (error_reply "Update failed").
Definition RejectedUpload : outcome := Passed (FilterError "Only image files allowed").
Definition PayloadTooLarge : outcome := Passed (MulterError "LIMIT_FILE_SIZE").
Definition StorageError (e : exn) : outcome := Passed (StorageFailure e).

(** ** multer *)

Inductive verdict : Type :=
| Accept                      (* [cb(null, true)] *)
| Reject (message : string).  (* [cb(new Error(message))] *)

Record diskStorage : Type := DiskStorage {
  destination : string;
  filename : upload -> M string
}.

Record multer : Type := Multer {
  storage : diskStorage;
  limits_fileSize : Z;
  fileFilter : upload -> verdict
}.

(** [multer(options).single('image')]: the filter is asked first, then the
    file is streamed to [destination/filename]; a file that exceeds the size
    limit is removed again. Any failure goes to [next]. *)
Definition single (m : multer) (req : request) : M (failure + option stored_file) :=
  match image req with
  | None => ret (inr None)
  | Some f =>
      match fileFilter m f with
      | Reject message => ret (inl (FilterError message))
      | Accept =>
          let* name := filename (storage m) f in
          let path := Path.join (destination (storage m)) name in
          try_catch
            (Fs.writeFile path (Opaque (payload f)) ;;
             if limits_fileSize m <? Z.of_nat (String.length (payload f))
             then
               try_catch (Fs.unlink path) (fun _ => ret tt) ;;
               ret (inl (MulterError "LIMIT_FILE_SIZE"))
             else ret (inr (Some (StoredFile name path (originalname f)))))
            (fun e => ret (inl (StorageFailure e)))
      end
  end.

(** [app.post(path, middleware, handler)] *)
Definition route (middleware : request -> M (failure + option stored_file))
    (handler : json -> option stored_file -> M outcome) (req : request) : M outcome :=
  let* r := middleware req in
  match r with
  | inl e => ret (Passed e)
  | inr file => handler (body req) file
  end.

(** ** The server *)

Section Server.

(** [process.env.ADMIN_PASSWORD] *)
Variable env_ADMIN_PASSWORD : option string.

(** The outcome of [v >= n] when [v] is a string or an array: ECMAScript
    converts [v] to a number by its numeric-literal grammar; [None] is the
    [TypeError] of a conversion that finds nothing callable. *)
Variable coerced_ge : json -> Z -> option bool.

(** *** File paths *)

Definition DATA_FILE : string := "status.json".
Definition GALLERY_FILE : string := "gallery.json".
Definition HERO_BG_FILE : string := "hero-background.json".
Definition UPLOADS_DIR : string := "uploads".
Definition GALLERY_UPLOADS_DIR : string := Path.join UPLOADS_DIR "gallery".
Definition HERO_UPLOADS_DIR : string := Path.join UPLOADS_DIR "hero".

Definition ADMIN_PASSWORD : string :=
  match env_ADMIN_PASSWORD with
  | Some s => if String.eqb s "" then "noblesrhyl1121" else s
  | None => "noblesrhyl1121"
  end.

(** *** Property access and comparison on received values *)

(** [v.k], for the property names the server reads ([password], [status],
    [notice], [description], [images], [length]): none is an array index and
    none is inherited from a prototype. Reading a property of [null] or
    [undefined] throws. *)
Definition member (v : jsval) (k : string) : M jsval :=
  match v with
  | None | Some JNull => throw TypeError
  | Some (JObj props) => ret (JS.lookup k props)
  | Some (JArr items) =>
      ret (if String.eqb k "length" then Some (JNum (Z.of_nat (length items))) else None)
  | Some (JStr s) =>
      ret (if String.eqb k "length" then Some (JNum (Z.of_nat (String.length s))) else None)
  | Some (JBool _) | Some (JNum _) => ret None
  end.

(** [v >= n] for a number [n]: [undefined] converts to [NaN], [null] to 0, a
    boolean to 0 or 1; a plain object converts through [toString], which is
    the inherited one unless the object has a property of that name, and a
    property read from JSON is not callable. *)
Definition ge (v : jsval) (n : Z) : M bool :=
  match v with
  | None => ret false
  | Some JNull => ret (n <=? 0)
  | Some (JBool b) => ret (n <=? (if b then 1 else 0))
  | Some (JNum x) => ret (n <=? x)
  | Some (JObj props) =>
      match JS.lookup "toString" props with
      | Some _ => throw TypeError
      | None => ret false
      end
  | Some x =>
      match coerced_ge x n with
      | Some b => ret b
      | None => throw TypeError
      end
  end.

(** [v.push(item)]: only an array has a [push] to call. *)
Definition push (v : jsval) (item : json) : M (list json) :=
  match v with
  | Some (JArr items) => ret (items ++ [item])
  | _ => throw TypeError
  end.

(** *** Multer configuration *)

(** [rnd] is the value of [Math.round(Math.random() * 1E9)] in this call. *)
Definition galleryStorage (rnd : Z) : diskStorage :=
  DiskStorage GALLERY_UPLOADS_DIR
    (fun file =>
       let* t := Date_now in
       let uniqueSuffix := pretty t +:+ "-" +:+ pretty rnd in
       ret ("gallery-" +:+ uniqueSuffix +:+ Path.extname (originalname file))).

Definition heroStorage : diskStorage :=
  DiskStorage HERO_UPLOADS_DIR
    (fun file => ret ("hero-background" +:+ Path.extname (originalname file))).

Definition image_only (file : upload) : verdict :=
  if String.prefix "image/" (mimetype file) then Accept
  else Reject "Only image files allowed".

Definition uploadGallery (rnd : Z) : multer :=
  Multer (galleryStorage rnd) (5 * 1024 * 1024) image_only.

Definition uploadHero : multer :=
  Multer heroStorage (10 * 1024 * 1024) image_only.

(** *** Helper functions *)

Definition readStatus : M json :=
  try_catch
    (let* data := Fs.readFile DATA_FILE in
     JSON_parse data)
    (fun _ =>
       let* t := now_iso in
       ret (JObj [("status", JBool false); ("notice", JStr ""); ("lastUpdated", JStr t)])).

(** [data] is the property list of the object passed in. *)
Definition writeStatus (data : list (string * json)) : M json :=
  let* t := now_iso in
  let statusData := JObj (JS.assign "lastUpdated" (JStr t) data) in
  Fs.writeFile DATA_FILE (JSON_stringify statusData) ;;
  ret statusData.

Definition readGallery : M json :=
  try_catch
    (let* data := Fs.readFile GALLERY_FILE in
     JSON_parse data)
    (fun _ => ret (JObj [("images", JArr [])])).

Definition writeGallery (data : json) : M json :=
  Fs.writeFile GALLERY_FILE (JSON_stringify data) ;;
  ret data.

Definition readHeroBackground : M json :=
  try_catch
    (let* data := Fs.readFile HERO_BG_FILE in
     JSON_parse data)
    (fun _ => ret (JObj [("filename", JNull); ("uploadedAt", JNull)])).

Definition writeHeroBackground (data : json) : M json :=
  Fs.writeFile HERO_BG_FILE (JSON_stringify data) ;;
  ret data.

(** *** Access guard *)

(** The routes deny when [req.body.password !== ADMIN_PASSWORD]; [authorize]
    is the negation of that test. *)
Definition authorize (suppliedSecret : jsval) : bool :=
  JS.strict_eq_string suppliedSecret ADMIN_PASSWORD.

(** *** Upload routes *)

(** [galleryData] once [galleryData.images.push (...)] has made its array
    [images]. *)
Definition pushed (galleryData : json) (images : list json) : json :=
  match galleryData with
  | JObj props => JObj (JS.assign "images" (JArr images) props)
  | other => other
  end.

Definition post_admin_upload_gallery (body : json) (file : option stored_file)
  : M outcome :=
  try_catch
    (let* password := member (Some body) "password" in
     if negb (authorize password) then ret Unauthorized
     else
       match file with
       | None => ret NoFile
       | Some file =>
           let* galleryData := readGallery in
           let* images := member (Some galleryData) "images" in
           let* len := member images "length" in
           let* full := ge len 10 in
           if full then
             Fs.unlink (file_path file) ;;
             ret GalleryFull
           else
             let* description := member (Some body) "description" in
             let* uploadedAt := now_iso in
             let imageData :=
               JObj [("filename", JStr (file_filename file));
                     ("originalName", JStr (file_originalname file));
                     ("description", JS.or_else description (JStr ""));
                     ("uploadedAt", JStr uploadedAt)] in
             let* images' := push images imageData in
             writeGallery (pushed galleryData images') ;;
             ret (Sent 200 (JObj [("success", JBool true); ("image", imageData)]))
       end)
    (fun _ => ret UploadFailed).

Definition post_admin_upload_hero (body : json) (file : option stored_file)
  : M outcome :=
  try_catch
    (let* password := member (Some body) "password" in
     if negb (authorize password) then ret Unauthorized
     else
       match file with
       | None => ret NoFile
       | Some file =>
           let* uploadedAt := now_iso in
           let heroData :=
             JObj [("filename", JStr (file_filename file));
                   ("originalName", JStr (file_originalname file));
                   ("uploadedAt", JStr uploadedAt)] in
           writeHeroBackground heroData ;;
           ret (Sent 200 (JObj [("success", JBool true); ("hero", heroData)]))
       end)
    (fun _ => ret UploadFailed).

(** *** Status route *)

Definition post_admin_update_status (body : json) : M outcome :=
  try_catch
    (let* password := member (Some body) "password" in
     if negb (authorize password) then ret Unauthorized
     else
       let* status := member (Some body) "status" in
       let* notice := member (Some body) "notice" in
       let* statusData :=
         writeStatus
           [("status", JBool (JS.strict_eq_string status "true" || JS.strict_eq_true status));
            ("notice", JS.or_else notice (JStr ""))] in
       ret (Sent 200 (JObj [("success", JBool true); ("data", statusData)])))
    (fun _ => ret UpdateFailed).

(** *** The routes as registered *)

Definition admin_upload_gallery (rnd : Z) : request -> M outcome :=
  route (single (uploadGallery rnd)) post_admin_upload_gallery.

Definition admin_upload_hero : request -> M outcome :=
  route (single uploadHero) post_admin_upload_hero.

Definition admin_update_status (req : request) : M outcome :=
  post_admin_update_status (body req).

End Server.

(** ** The mobile client's refresh timer *)

Module Client.

Local Set Warnings "-inexact-float".

Record NetworkInformation : Type := { effectiveType : option string }.

Record BatteryManager : Type := { level : float }.

(** [getBattery] is [None] when ['getBattery' in navigator] is false;
    otherwise it is the battery its promise resolves with. *)
Record Navigator : Type := {
  connection : option NetworkInformation;
  getBattery : option BatteryManager
}.

(** Truthiness of [navigator.connection && navigator.connection.effectiveType
    && ['slow-2g', '2g', '3g'].includes(navigator.connection.effectiveType)]. *)
Definition isSlowConnection (navigator : Navigator) : bool :=
  match connection navigator with
  | None => false
  | Some c =>
      match effectiveType c with
      | None => false
      | Some t =>
          negb (String.eqb t "")
          && existsb (String.eqb t) ["slow-2g"; "2g"; "3g"]
      end
  end.

Inductive callback : Type := loadSettings.

(** A reaction waiting on a promise: the arrow function given to [then]. *)
Inductive reaction : Type := battery_then.

(** The part of the page the timer code acts on: the [setInterval] table, the
    promise reactions not yet run, and the values of promises that were
    resolved while nothing held them. *)
Record page : Type := Page {
  intervals : list (callback * Z);
  pending : list reaction;
  dropped : list Z
}.

Definition setInterval (f : callback) (delay : Z) (pg : page) : page :=
  Page (intervals pg ++ [(f, delay)]) (pending pg) (dropped pg).

(** [battery => battery.level < 0.2 ? 60000 : 30000] *)
Definition battery_interval (battery : BatteryManager) : Z :=
  if PrimFloat.ltb (level battery) 0.2%float then 60000 else 30000.

(** The call [navigator.getBattery().then(...)] is an expression statement:
    the promise it builds is kept by nobody. *)
Definition getRefreshInterval (navigator : Navigator) (pg : page) : Z * page :=
  let pg' :=
    match getBattery navigator with
    | Some _ => Page (intervals pg) (pending pg ++ [battery_then]) (dropped pg)
    | None => pg
    end in
  (if isSlowConnection navigator then 45000 else 30000, pg').

(** The timer lines of the [DOMContentLoaded] handler; the lines before them
    set up navigation and load the settings, and leave [page] alone. *)
Definition onDOMContentLoaded (navigator : Navigator) (pg : page) : page :=
  let '(refreshInterval, pg1) := getRefreshInterval navigator pg in
  setInterval loadSettings refreshInterval pg1.

(** Running one reaction resolves the promise [then] returned. *)
Definition react (navigator : Navigator) (r : reaction) (pg : page) : page :=
  match r, getBattery navigator with
  | battery_then, Some battery =>
      Page (intervals pg) (pending pg) (dropped pg ++ [battery_interval battery])
  | battery_then, None => pg
  end.

(** The microtask checkpoint: every pending reaction runs. *)
Definition drain (navigator : Navigator) (pg : page) : page :=
  fold_left (fun acc r => react navigator r acc) (pending pg)
    (Page (intervals pg) [] (dropped pg)).

End Client.

(** ** Views of the store *)

(** What a read of a JSON document yields: the parsed text, or the default
    when the file is missing, unreadable or not JSON. *)
Definition stored (path : string) (default : json) (w : world) : json :=
  if decide (path ∈ faulty w) then default
  else match files w !! path with
       | Some (Document v) => v
       | _ => default
       end.

Definition default_status (t : Z) : json :=
  JObj [("status", JBool false); ("notice", JStr "");
        ("lastUpdated", JStr (Date.toISOString t))].
Definition default_gallery : json := JObj [("images", JArr [])].
Definition default_hero : json := JObj [("filename", JNull); ("uploadedAt", JNull)].

(** The entries of a gallery document of the expected shape. *)
Definition entries (galleryData : json) : option (list json) :=
  match galleryData with
  | JObj props =>
      match JS.lookup "images" props with
      | Some (JArr images) => Some images
      | _ => None
      end
  | _ => None
  end.

(** The three documents of a world, as they lie on the disk. *)
Definition metadata (w : world) : option content * option content * option content :=
  (files w !! DATA_FILE, files w !! GALLERY_FILE, files w !! HERO_BG_FILE).

(** A route commits when it answers 200. *)
Definition committed (o : outcome) : bool :=
  match o with
  | Sent 200 _ => true
  | _ => false
  end.

(** The entry the gallery route records for a stored file. *)
Definition image_entry (file : stored_file) (description : json) (t : Z) : json :=
  JObj [("filename", JStr (file_filename file));
        ("originalName", JStr (file_originalname file));
        ("description", description);
        ("uploadedAt", JStr (Date.toISOString t))].

(** The record the hero route writes for a stored file. *)
Definition hero_record (file : stored_file) (t : Z) : json :=
  JObj [("filename", JStr (file_filename file));
        ("originalName", JStr (file_originalname file));
        ("uploadedAt", JStr (Date.toISOString t))].

(** The names the two disk storages give to an upload. *)
Definition gallery_name (rnd : Z) (file : upload) (w : world) : string :=
  "gallery-" +:+ (pretty (clock w) +:+ "-" +:+ pretty rnd)
    +:+ Path.extname (originalname file).
Definition hero_name (file : upload) : string :=
  "hero-background" +:+ Path.extname (originalname file).

(** What [single] can do to a request: nothing to store, a refusal that
    leaves the disk alone, an oversized file written and removed again, or
    the file stored under [name]. *)
Inductive upload_effect (m : multer) (req : request) (name : upload → string)
    (w : world) : failure + option stored_file → world → Prop :=
| upload_none :
    image req = None →
    upload_effect m req name w (inr None) w
| upload_filtered f message :
    image req = Some f →
    fileFilter m f = Reject message →
    upload_effect m req name w (inl (FilterError message)) w
| upload_write_failed f :
    image req = Some f →
    fileFilter m f = Accept →
    Path.join (destination (storage m)) (name f) ∈ faulty w →
    upload_effect m req name w
      (inl (StorageFailure (EIO (Path.join (destination (storage m)) (name f))))) w
| upload_too_large f :
    image req = Some f →
    fileFilter m f = Accept →
    Path.join (destination (storage m)) (name f) ∉ faulty w →
    limits_fileSize m < Z.of_nat (String.length (payload f)) →
    upload_effect m req name w (inl (MulterError "LIMIT_FILE_SIZE"))
      (with_files (delete (Path.join (destination (storage m)) (name f)) (files w)) w)
| upload_stored f :
    image req = Some f →
    fileFilter m f = Accept →
    Path.join (destination (storage m)) (name f) ∉ faulty w →
    Z.of_nat (String.length (payload f)) ≤ limits_fileSize m →
    let path := Path.join (destination (storage m)) (name f) in
    upload_effect m req name w
      (inr (Some (StoredFile (name f) path (originalname f))))
      (with_files (<[path := Opaque (payload f)]> (files w)) w).

(** What the gallery handler can do once a file is stored: refuse and leave
    the disk alone, refuse a full gallery and remove the file, or append the
    entry to a gallery of fewer than ten. *)
Inductive gallery_effect (file : stored_file) (w : world) : outcome → world → Prop :=
| gallery_refused o :
    committed o = false →
    gallery_effect file w o w
| gallery_full :
    gallery_effect file w GalleryFull
      (with_files (delete (file_path file) (files w)) w)
| gallery_commit props l description :
    stored GALLERY_FILE default_gallery w = JObj props →
    JS.lookup "images" props = Some (JArr l) →
    (length l < 10)%nat →
    GALLERY_FILE ∉ faulty w →
    let entry := image_entry file description (clock w) in
    gallery_effect file w
      (Sent 200 (JObj [("success", JBool true); ("image", entry)]))
      (with_files
         (<[GALLERY_FILE :=
              Document (JObj (JS.assign "images" (JArr (l ++ [entry])) props))]>
            (files w)) w).

(** The same for the hero handler: refuse, or replace the record. *)
Inductive hero_effect (file : stored_file) (w : world) : outcome → world → Prop :=
| hero_refused o :
    committed o = false →
    hero_effect file w o w
| hero_commit :
    HERO_BG_FILE ∉ faulty w →
    let record := hero_record file (clock w) in
    hero_effect file w
      (Sent 200 (JObj [("success", JBool true); ("hero", record)]))
      (with_files (<[HERO_BG_FILE := Document record]> (files w)) w).

(** A request that carries the admin secret in its [password] field. *)
Definition authorized (env : option string) (req : request) : Prop :=
  ∃ props, body req = JObj props ∧ authorize env (JS.lookup "password" props) = true.

(** An image that is no larger than [limit] bytes. *)
Definition acceptable (limit : Z) (file : upload) : Prop :=
  String.prefix "image/" (mimetype file) = true
  ∧ Z.of_nat (String.length (payload file)) ≤ limit.

(** ** Sample inputs *)

Definition ten_entries : list json :=
  replicate 10
    (image_entry (StoredFile "gallery-1-1.jpg" "uploads/gallery/gallery-1-1.jpg" "a.jpg")
       (JStr "") 1).

Definition full_world : world :=
  World {[ GALLERY_FILE := Document (JObj [("images", JArr ten_entries)]) ]} ∅ 1000000000000.

Definition sale_photo : upload := Upload "a.jpg" "image/jpeg" "JPEGDATA".

Definition sale_request : request :=
  Request (JObj [("password", JStr "noblesrhyl1121"); ("description", JStr "sale")])
    (Some sale_photo).

Definition hero_request_1 : request :=
  Request (JObj [("password", JStr "noblesrhyl1121")])
    (Some (Upload "field.jpg" "image/jpeg" "FIRST")).

Definition hero_request_2 : request :=
  Request (JObj [("password", JStr "noblesrhyl1121")])
    (Some (Upload "stalls.jpg" "image/jpeg" "SECOND")).

(** A payload of [n] bytes. *)
Fixpoint filler (n : nat) : string :=
  match n with
  | O => ""
  | S k => String "x"%char (filler k)
  end.

(** ** The rest of the server *)

(** [fs.access(path)]: succeeds when the file is there. *)
Definition fs_access (path : string) : M unit :=
  fun w =>
    if decide (path ∈ faulty w) then (Thrown (EIO path), w)
    else match files w !! path with
         | Some _ => (Ok tt, w)
         | None => (Thrown (ENOENT path), w)
         end.

(** One outer [try] around three inner ones: a write that fails in an inner
    [catch] ends the whole function in the outer [catch], which only logs. *)
Definition initializeDataFiles : M unit :=
  try_catch
    (try_catch (fs_access DATA_FILE)
       (fun _ =>
          let* t := now_iso in
          let defaultData :=
            JObj [("status", JBool false); ("notice", JStr ""); ("lastUpdated", JStr t)] in
          Fs.writeFile DATA_FILE (JSON_stringify defaultData)) ;;
     try_catch (fs_access GALLERY_FILE)
       (fun _ =>
          let defaultGallery := JObj [("images", JArr [])] in
          Fs.writeFile GALLERY_FILE (JSON_stringify defaultGallery)) ;;
     try_catch (fs_access HERO_BG_FILE)
       (fun _ =>
          let defaultHero := JObj [("filename", JNull); ("uploadedAt", JNull)] in
          Fs.writeFile HERO_BG_FILE (JSON_stringify defaultHero)))
    (fun _ => ret tt).

(** [app.get('/api/status')], [app.get('/api/gallery')] and
    [app.get('/api/hero-background')]. *)
Definition get_api_status : M outcome :=
  try_catch
    (let* statusData := readStatus in
     ret (Sent 200 statusData))
    (fun _ => ret (Sent 500 (error_reply "Failed to get status"))).

Definition get_api_gallery : M outcome :=
  try_catch
    (let* galleryData := readGallery in
     ret (Sent 200 galleryData))
    (fun _ => ret (Sent 500 (error_reply "Failed to get gallery"))).

Definition get_api_hero_background : M outcome :=
  try_catch
    (let* heroData := readHeroBackground in
     ret (Sent 200 heroData))
    (fun _ => ret (Sent 500 (error_reply "Failed to get hero background"))).

(** A run of gallery uploads: before each one some time passes, and each has
    its own random number. *)
Fixpoint gallery_session (env : option string) (cge : json → Z → option bool)
    (steps : list (N * Z * request)) (w : world) : list outcome * world :=
  match steps with
  | [] => ([], w)
  | (d, rnd, req) :: rest =>
      match admin_upload_gallery env cge rnd req (later d w) with
      | (Ok o, w1) =>
          let '(os, w2) := gallery_session env cge rest w1 in
          (o :: os, w2)
      | (Thrown _, w1) => ([], w1)
      end
  end.

(** The disk that initialization leaves: each document in turn is kept when
    its file is there and created when it is not, up to the first path with a
    fault. *)
Definition created (path : string) (v : json) (disk : gmap string content)
  : gmap string content :=
  match disk !! path with
  | Some _ => disk
  | None => <[path := Document v]> disk
  end.

Definition initialized_disk (w : world) : gmap string content :=
  if decide (DATA_FILE ∈ faulty w) then files w
  else
    let disk1 := created DATA_FILE (default_status (clock w)) (files w) in
    if decide (GALLERY_FILE ∈ faulty w) then disk1
    else
      let disk2 := created GALLERY_FILE default_gallery disk1 in
      if decide (HERO_BG_FILE ∈ faulty w) then disk2
      else created HERO_BG_FILE default_hero disk2.

(** Every character of a string satisfies [P]. *)
Fixpoint each_char (P : ascii → Prop) (s : string) : Prop :=
  match s with
  | EmptyString => True
  | String c rest => P c ∧ each_char P rest
  end.

Definition digit (c : ascii) : Prop := is_Some (Ascii.is_nat c).

(** ** The mobile client's listeners *)

Module Page.

(** *** Scrolling *)

(** The state the scroll code acts on: the flag [ticking], the callbacks
    waiting in [requestAnimationFrame] (each one resets the flag), the
    listener's variable [scrollTimeout], the [updateOnScroll] timers that have
    not fired yet, and the handle [setTimeout] returns next. Handles are
    positive, so a handle stored in [scrollTimeout] is truthy. *)
Record scroller : Type := Scroller {
  ticking : bool;
  frames : nat;
  scrollTimeout : option positive;
  timeouts : list positive;
  next_handle : positive
}.

Definition loaded : scroller := Scroller false 0 None [] 1.

Definition updateOnScroll (s : scroller) : scroller :=
  if ticking s then s
  else Scroller true (S (frames s)) (scrollTimeout s) (timeouts s) (next_handle s).

(** [clearTimeout(id)]: a handle that is not pending is ignored. *)
Definition clearTimeout (id : positive) (pending : list positive) : list positive :=
  filter (fun id' => id' ≠ id) pending.

(** The scroll listener registered on mobile devices. *)
Definition on_scroll (s : scroller) : scroller :=
  let pending :=
    match scrollTimeout s with
    | Some id => clearTimeout id (timeouts s)
    | None => timeouts s
    end in
  Scroller (ticking s) (frames s) (Some (next_handle s))
    (pending ++ [next_handle s]) (Pos.succ (next_handle s)).

Inductive event : Type :=
| scroll
| timeout_fires (id : positive)   (* 16 ms have passed for timer [id] *)
| frame_fires.                    (* the browser runs one animation callback *)

Definition step (s : scroller) (e : event) : scroller :=
  match e with
  | scroll => on_scroll s
  | timeout_fires id =>
      if decide (id ∈ timeouts s)
      then updateOnScroll
             (Scroller (ticking s) (frames s) (scrollTimeout s)
                (clearTimeout id (timeouts s)) (next_handle s))
      else s
  | frame_fires =>
      match frames s with
      | O => s
      | S n => Scroller false n (scrollTimeout s) (timeouts s) (next_handle s)
      end
  end.

Definition run (events : list event) (s : scroller) : scroller :=
  fold_left step events s.

(** *** Visibility *)

(** [window.lastVisibleTime], and the times at which the listener has called
    [loadSettings], the latest first. *)
Record visibility : Type := Visibility {
  lastVisibleTime : option Z;
  reloads : list Z
}.

(** The [visibilitychange] listener; [hidden] is [document.hidden], [now] is
    what [Date.now ()] yields in the test and [now'] what it yields in the
    assignment that ends the listener. *)
Definition on_visibilitychange (hidden : bool) (now now' : Z) (v : visibility)
  : visibility :=
  let reload :=
    negb hidden
    && (negb (JS.truthy (JNum <$> lastVisibleTime v))
        || (30000 <? now - default 0 (lastVisibleTime v))) in
  Visibility (Some now') (if reload then now :: reloads v else reloads v).

(** The tab changes visibility again and again. *)
Definition watch (changes : list (bool * Z * Z)) (v : visibility) : visibility :=
  fold_left (fun v '(hidden, now, now') => on_visibilitychange hidden now now' v)
    changes v.

(** *** Showing the status (the baseline client, [src/app.js]) *)

(** The four elements [updateStatusDisplay] looks up, each possibly absent:
    the class of the indicator, the text of the status line, whether the
    notice box carries the class [hidden], and the text of the notice. *)
Record dom : Type := Dom {
  statusIndicator : option string;
  statusText : option string;
  customNoticeDiv : option bool;
  customNoticeText : option string
}.

(** The globals [currentStatus] and [customNotice]. *)
Record globals : Type := Globals {
  currentStatus : bool;
  customNotice : json
}.

(** [updateStatusDisplay]; [blank s] tells whether [s.trim()] is empty. The
    boolean of the result is set when the function throws: a truthy notice
    that is not a string has no [trim] to call, and by then the status line
    has been written. *)
Definition updateStatusDisplay (blank : string → bool) (gl : globals) (d : dom)
  : dom * bool :=
  let d1 :=
    match statusIndicator d, statusText d with
    | Some _, Some _ =>
        if currentStatus gl
        then Dom (Some "status-indicator open") (Some "CURRENTLY OPEN")
               (customNoticeDiv d) (customNoticeText d)
        else Dom (Some "status-indicator closed") (Some "CURRENTLY CLOSED")
               (customNoticeDiv d) (customNoticeText d)
    | _, _ => d
    end in
  let hide :=
    Dom (statusIndicator d1) (statusText d1)
      (match customNoticeDiv d1 with Some _ => Some true | None => None end)
      (customNoticeText d1) in
  match customNotice gl with
  | JStr s =>
      if JS.truthy (Some (JStr s)) && negb (blank s)
      then (Dom (statusIndicator d1) (statusText d1)
              (match customNoticeDiv d1 with Some _ => Some false | None => None end)
              (match customNoticeText d1 with Some _ => Some s | None => None end),
            false)
      else (hide, false)
  | other => if JS.truthy (Some other) then (d1, true) else (hide, false)
  end.

(** [statusData.k] for a truthy [statusData]. *)
Definition field (statusData : json) (k : string) : jsval :=
  match statusData with
  | JObj props => JS.lookup k props
  | _ => None
  end.

(** The first block of [loadSettings], given what [fetchStatus] returned
    ([null] on failure). When the display throws, the [catch] of
    [loadSettings] takes over and the gallery and the hero are not loaded. *)
Definition loadSettings_status (blank : string → bool) (statusData : json)
    (gl : globals) (d : dom) : globals * dom * bool :=
  if JS.truthy (Some statusData) then
    let gl' :=
      Globals (JS.truthy (field statusData "status"))
        (JS.or_else (field statusData "notice") (JStr "")) in
    let '(d', threw) := updateStatusDisplay blank gl' d in
    (gl', d', threw)
  else (gl, d, false).

(** *** Fetching (the mobile client) *)

Definition API_STATUS : string := "/api/status".
Definition API_GALLERY : string := "/api/gallery".
Definition API_HERO_BG : string := "/api/hero-background".

(** The closures handed to [setTimeout] that can reach the network: the one
    of [fetchGallery], the one of [fetchHeroBackground] and the one of
    [loadSettings]. *)
Inductive deferred : Type :=
| again_fetchGallery
| again_fetchHeroBackground
| load_hero.

(** Who called a fetch function: [loadSettings], which uses the result, or a
    timer, which drops it. *)
Inductive caller : Type := by_loadSettings | by_timer.

(** An async function suspended at its [await fetchWithTimeout (...)]. *)
Inductive awaiting : Type :=
| in_fetchStatus
| in_fetchGallery (c : caller)
| in_fetchHeroBackground (c : caller).

(** The URLs fetched so far (without their [?t=] suffix), the functions that
    wait for a reply, and those timers of the three closures above that wait
    to fire. The other timers of the page are not recorded here. The abort
    timer of [fetchWithTimeout] ends a request with [null] when it fires, and
    is cleared when the request ends first: it is the occurrence [replies]
    with [null]. The timer of the connection listener calls [loadSettings]
    when it fires: it is the occurrence [calls_loadSettings]. The 100 ms
    timer of [updateStatusDisplay] writes the status line and nothing else,
    and the timer of the scroll listener is in [scroller]. *)
Record network : Type := Network {
  requests : list string;
  in_flight : list awaiting;
  timers : list (deferred * Z)
}.

(** The page as loaded. *)
Definition idle : network := Network [] [] [].

Definition setTimeout (f : deferred) (ms : Z) (net : network) : network :=
  Network (requests net) (in_flight net) (timers net ++ [(f, ms)]).

(** [fetchWithTimeout (url, timeout)] up to its [await]: the request is sent
    and the caller [a] waits. What it resumes with is the parsed reply, or
    [null] when the request fails, is answered with an error status or is
    aborted after [timeout]. The abort timer the function sets is not kept in
    [timers]: its firing is a request that ends with [null], and both ways
    out of the function clear it. *)
Definition fetchWithTimeout (url : string) (a : awaiting) (net : network)
  : network :=
  Network (requests net ++ [url]) (in_flight net ++ [a]) (timers net).

(** [data?.images] *)
Definition optional_images (data : json) : jsval :=
  match data with
  | JObj props => JS.lookup "images" props
  | _ => None
  end.

(** [galleryImages.length === 0] *)
Definition length_is_zero (galleryImages : json) : bool :=
  match galleryImages with
  | JArr l => Nat.eqb (length l) 0
  | JStr s => String.eqb s ""
  | JObj props =>
      match JS.lookup "length" props with
      | Some (JNum 0) => true
      | _ => false
      end
  | _ => false
  end.

(** Whether [galleryImages.map (image => ... image.filename ...)] throws:
    only an array has a [map] to call, and [null] has no [filename]. *)
Definition map_throws (galleryImages : json) : bool :=
  match galleryImages with
  | JArr l => existsb (fun image => match image with JNull => true | _ => false end) l
  | _ => true
  end.

(** Whether [customNotice && customNotice.trim ()] throws. *)
Definition trim_throws (customNotice : json) : bool :=
  match customNotice with
  | JStr _ => false
  | other => JS.truthy (Some other)
  end.

Section Device.

Variables isSlowConnection isMobile : bool.

(** Whether the page has an element [galleryScroll]. *)
Variable galleryScroll : bool.

(** The fetch functions return [Some v] when they return [v] without
    awaiting, and [None] when they wait for the network. *)
Definition fetchGallery (c : caller) (net : network) : option json * network :=
  if isSlowConnection
  then (Some (JArr []), setTimeout again_fetchGallery 2000 net)
  else (None, fetchWithTimeout API_GALLERY (in_fetchGallery c) net).

Definition fetchHeroBackground (c : caller) (net : network)
  : option json * network :=
  if isMobile
  then (Some JNull, setTimeout again_fetchHeroBackground 1000 net)
  else (None, fetchWithTimeout API_HERO_BG (in_fetchHeroBackground c) net).

(** Whether [updateGalleryDisplay (images)] throws. *)
Definition updateGalleryDisplay_throws (images : json) : bool :=
  let galleryImages := JS.or_else (Some images) (JArr []) in
  galleryScroll && negb (length_is_zero galleryImages) && map_throws galleryImages.

(** [loadSettings], cut at its awaits. An exception ends it: its [catch]
    only logs. *)
Definition loadSettings (net : network) : network :=
  fetchWithTimeout API_STATUS in_fetchStatus net.

(** Priority 3. *)
Definition hero_step (net : network) : network :=
  if isMobile then net else setTimeout load_hero 500 net.

Definition show_gallery (images : json) (net : network) : network :=
  if updateGalleryDisplay_throws images then net else hero_step net.

(** Priority 2. *)
Definition gallery_step (net : network) : network :=
  if isSlowConnection then hero_step net
  else
    match fetchGallery by_loadSettings net with
    | (Some images, net') => show_gallery images net'
    | (None, net') => net'
    end.

(** Priority 1, once [fetchStatus] has returned [statusData]. *)
Definition status_step (statusData : json) (net : network) : network :=
  if JS.truthy (Some statusData)
     && trim_throws (JS.or_else (field statusData "notice") (JStr ""))
  then net
  else gallery_step net.

(** The function waiting as [a] goes on with [data]. *)
Definition resume (a : awaiting) (data : json) (net : network) : network :=
  match a with
  | in_fetchStatus => status_step data net
  | in_fetchGallery by_loadSettings =>
      show_gallery (JS.or_else (optional_images data) (JArr [])) net
  | in_fetchGallery by_timer | in_fetchHeroBackground _ => net
  end.

(** The request at position [i] of those in flight comes to its end. *)
Definition reply (i : nat) (data : json) (net : network) : network :=
  match in_flight net !! i with
  | None => net
  | Some a =>
      resume a data (Network (requests net) (delete i (in_flight net)) (timers net))
  end.

(** The timer at position [i] fires: its function runs and its result is
    dropped. *)
Definition fire (i : nat) (net : network) : network :=
  match timers net !! i with
  | None => net
  | Some (f, _) =>
      let net' := Network (requests net) (in_flight net) (delete i (timers net)) in
      match f with
      | again_fetchGallery => snd (fetchGallery by_timer net')
      | again_fetchHeroBackground => snd (fetchHeroBackground by_timer net')
      | load_hero => snd (fetchHeroBackground by_loadSettings net')
      end
  end.

(** What can happen to the page: [loadSettings] is called (at load, by the
    refresh interval, when the tab is shown again, one second after the
    connection has changed), a recorded timer fires, a request ends (with its
    reply, or with [null] when it fails or its abort timer fires). *)
Inductive occurrence : Type :=
| calls_loadSettings
| fires (i : nat)
| replies (i : nat) (data : json).

Definition occur (net : network) (o : occurrence) : network :=
  match o with
  | calls_loadSettings => loadSettings net
  | fires i => fire i net
  | replies i data => reply i data net
  end.

Definition session (os : list occurrence) (net : network) : network :=
  fold_left occur os net.

End Device.

End Page.

(** What every reachable state of the scroll code satisfies: the flag tells
    whether an animation callback waits, and the only timer that can be
    pending is the one [scrollTimeout] names. *)
Definition scroll_ok (s : Page.scroller) : Prop :=
  Page.frames s = (if Page.ticking s then 1 else 0)%nat
  ∧ (Page.timeouts s = []
     ∨ ∃ id, Page.timeouts s = [id] ∧ Page.scrollTimeout s = Some id).

(** What holds of the page from its load on: of the three closures that can
    reach the network the only one pending is that of [loadSettings], and
    every fetch that waits was started by [loadSettings]. *)
Definition only_loadSettings (mobile : bool) (net : Page.network) : Prop :=
  (∀ f ms, (f, ms) ∈ Page.timers net →
     f = Page.load_hero ∧ ms = 500 ∧ mobile = false)
  ∧ (∀ a, a ∈ Page.in_flight net →
       a ≠ Page.in_fetchGallery Page.by_timer
       ∧ a ≠ Page.in_fetchHeroBackground Page.by_timer).

(** The clock of the browser does not run backwards: from [t] on, each
    reading is at least the one before. *)
Fixpoint clock_runs (t : Z) (changes : list (bool * Z * Z)) : Prop :=
  match changes with
  | [] => True
  | (_, now, now') :: rest => t ≤ now ∧ now ≤ now' ∧ clock_runs now' rest
  end.

(** Times, the latest first, that lie more than [gap] apart. *)
Fixpoint spaced (gap : Z) (times : list Z) : Prop :=
  match times with
  | a :: (b :: _) as rest => gap < a - b ∧ spaced gap rest
  | _ => True
  end.

(** ** Reading a time stamp back *)

(** The day number of a date: [Date.civil] backwards. *)
Definition days_from_civil (y m d : Z) : Z :=
  let y' := if m <=? 2 then y - 1 else y in
  let era := y' / 400 in
  let yoe := y' - era * 400 in
  let mp := if 2 <? m then m - 3 else m + 9 in
  let doy := (153 * mp + 2) / 5 + d - 1 in
  let doe := yoe * 365 + yoe / 4 - yoe / 100 + doy in
  era * 146097 + doe - 719468.

(** The number that a run of decimal digits writes, and ten to the power of
    its length. *)
Fixpoint numeral (s : string) : N * N :=
  match s with
  | "" => (0, 1)%N
  | String c r =>
      let '(v, p) := numeral r in
      (N.of_nat (default 0%nat (Ascii.is_nat c)) * p + v, 10 * p)%N
  end.

(** * Properties *)

(** ** Objects *)

Lemma lookup_assign_eq k v props : JS.lookup k (JS.assign k v props) = Some v.
Proof.
  induction props as [|[k' v'] rest IH]; simpl.
  - by rewrite String.eqb_refl.
  - destruct (String.eqb k k') eqn:E; simpl.
    + by rewrite String.eqb_refl.
    + by rewrite E.
Qed.

(** ** Paths *)

Lemma append_cons c s t : String c s +:+ t = String c (s +:+ t).
Proof. reflexivity. Qed.

Lemma append_eq_self s t : s +:+ t = s → t = "".
Proof.
  induction s as [|c s IH]; [done |].
  rewrite append_cons. intros H. injection H as H. by apply IH.
Qed.

(** An upload never lands on one of the three documents. *)
Lemma upload_path_not_document dir name :
  dir = GALLERY_UPLOADS_DIR ∨ dir = HERO_UPLOADS_DIR →
  Path.join dir name ≠ DATA_FILE
  ∧ Path.join dir name ≠ GALLERY_FILE
  ∧ Path.join dir name ≠ HERO_BG_FILE.
Proof.
  intros [-> | ->]; repeat split; intros H; vm_compute in H; discriminate H.
Qed.

(** ** File system *)

Lemma writeFile_faulty path c w :
  path ∈ faulty w → Fs.writeFile path c w = (Thrown (EIO path), w).
Proof. intros H. unfold Fs.writeFile. by rewrite decide_True. Qed.

Lemma writeFile_done path c w :
  path ∉ faulty w →
  Fs.writeFile path c w = (Ok tt, with_files (<[path := c]> (files w)) w).
Proof. intros H. unfold Fs.writeFile. by rewrite decide_False. Qed.

Lemma read_or_default path default w :
  try_catch (let* data := Fs.readFile path in JSON_parse data)
    (fun _ => ret default) w
  = (Ok (stored path default w), w).
Proof.
  unfold try_catch, bind, Fs.readFile, stored.
  destruct (decide (path ∈ faulty w)); [done |].
  destruct (files w !! path) as [[v | bytes] |]; done.
Qed.

Lemma readStatus_run w :
  readStatus w = (Ok (stored DATA_FILE (default_status (clock w)) w), w).
Proof.
  unfold readStatus, try_catch, bind, Fs.readFile, stored.
  destruct (decide (DATA_FILE ∈ faulty w)); [done |].
  destruct (files w !! DATA_FILE) as [[v | bytes] |]; done.
Qed.

Lemma readGallery_run w :
  readGallery w = (Ok (stored GALLERY_FILE default_gallery w), w).
Proof. apply read_or_default. Qed.

Lemma readHeroBackground_run w :
  readHeroBackground w = (Ok (stored HERO_BG_FILE default_hero w), w).
Proof. apply read_or_default. Qed.

Lemma unlink_found path c w :
  path ∉ faulty w → files w !! path = Some c →
  Fs.unlink path w = (Ok tt, with_files (delete path (files w)) w).
Proof. intros H E. unfold Fs.unlink. by rewrite decide_False, E. Qed.

Lemma with_files_twice disk disk' w :
  with_files disk (with_files disk' w) = with_files disk w.
Proof. reflexivity. Qed.

(** ** Reading the status *)

(** C2. When the status file is missing, is not JSON, or cannot be read,
    [readStatus] does not throw: it returns the default record (closed, empty
    notice, stamped with the current time) and leaves the world as it is. *)
Theorem readStatus_default (w : world) :
  files w !! DATA_FILE = None
  ∨ (∃ bytes, files w !! DATA_FILE = Some (Opaque bytes))
  ∨ DATA_FILE ∈ faulty w →
  readStatus w
  = (Ok (JObj [("status", JBool false); ("notice", JStr "");
               ("lastUpdated", JStr (Date.toISOString (clock w)))]), w).
Proof.
  intros H. rewrite readStatus_run. do 2 f_equal. unfold stored.
  destruct (decide (DATA_FILE ∈ faulty w)) as [|Hok]; [done |].
  destruct H as [-> | [[bytes ->] | Hbad]]; done.
Qed.

Lemma readStatus_default_witness :
  readStatus (World ∅ ∅ 0)
  = (Ok (JObj [("status", JBool false); ("notice", JStr "");
               ("lastUpdated", JStr "1970-01-01T00:00:00.000Z")]), World ∅ ∅ 0).
Proof. apply (readStatus_default (World ∅ ∅ 0)). left. reflexivity. Defined.

(** In every state of the disk [readStatus] returns a value. *)
Lemma readStatus_never_throws (w : world) : ∃ v, readStatus w = (Ok v, w).
Proof. rewrite readStatus_run. eauto. Qed.

(** ** Access guard *)

Section Guard.

Context (env : option string).

Lemma ADMIN_PASSWORD_not_empty : ADMIN_PASSWORD env ≠ "".
Proof.
  unfold ADMIN_PASSWORD. destruct env as [s|]; [|done].
  destruct (String.eqb_spec s ""); done.
Qed.

Lemma authorize_iff (suppliedSecret : jsval) :
  authorize env suppliedSecret = true ↔ suppliedSecret = Some (JStr (ADMIN_PASSWORD env)).
Proof.
  unfold authorize, JS.strict_eq_string.
  destruct suppliedSecret as [[| | |s| |]|]; try (split; discriminate).
  destruct (String.eqb_spec s (ADMIN_PASSWORD env)) as [->|Hne]; split; try done.
  intros [= ->]. done.
Qed.

(** C6. [authorize] holds exactly for the configured secret as a string. It
    fails for an absent secret, for the empty string and for the secret
    followed by anything, a trailing blank included; and a body whose
    [password] does not pass is answered 401 by each of the admin routes,
    with nothing touched. *)
Theorem authorize_exact_match :
  (∀ suppliedSecret,
     authorize env suppliedSecret = true
     ↔ suppliedSecret = Some (JStr (ADMIN_PASSWORD env)))
  ∧ authorize env None = false
  ∧ authorize env (Some (JStr "")) = false
  ∧ authorize env (Some (JStr (ADMIN_PASSWORD env +:+ " "))) = false
  ∧ (∀ suffix, suffix ≠ "" →
       authorize env (Some (JStr (ADMIN_PASSWORD env +:+ suffix))) = false)
  ∧ (∀ cge props file w,
       authorize env (JS.lookup "password" props) = false →
       post_admin_upload_gallery env cge (JObj props) file w = (Ok Unauthorized, w)
       ∧ post_admin_upload_hero env (JObj props) file w = (Ok Unauthorized, w)
       ∧ post_admin_update_status env (JObj props) w = (Ok Unauthorized, w)).
Proof.
  assert (Hsuffix : ∀ suffix, suffix ≠ "" →
            authorize env (Some (JStr (ADMIN_PASSWORD env +:+ suffix))) = false).
  { intros suffix Hne. apply not_true_is_false. rewrite authorize_iff.
    intros [= H]. by apply append_eq_self in H. }
  split; [exact authorize_iff |].
  split; [reflexivity |].
  split.
  { apply not_true_is_false. rewrite authorize_iff. intros [= H].
    by apply (ADMIN_PASSWORD_not_empty). }
  split; [by apply Hsuffix |].
  split; [exact Hsuffix |].
  intros cge props file w Hno.
  unfold post_admin_upload_gallery, post_admin_upload_hero,
    post_admin_update_status, try_catch, bind, member, ret.
  by rewrite Hno.
Qed.

End Guard.

(** ** Uploads *)

(** Throughout, [env] is the value of [process.env.ADMIN_PASSWORD] and [cge]
    the platform's comparison of a string or an array with a number. *)

Lemma ge_pure cge v n w : ∃ r, ge cge v n w = (r, w).
Proof.
  destruct v as [[| | | | |props]|]; simpl; eauto.
  - destruct (cge _ _); simpl; eauto.
  - destruct (cge _ _); simpl; eauto.
  - destruct (JS.lookup _ _); simpl; eauto.
Qed.

Lemma single_effect m req name w r w' :
  (∀ f, filename (storage m) f w = (Ok (name f), w)) →
  single m req w = (r, w') →
  ∃ a, r = Ok a ∧ upload_effect m req name w a w'.
Proof.
  intros Hname H. unfold single in H.
  destruct (image req) as [f|] eqn:Hf; simpl in H.
  2:{ simplify_eq. eexists; split; [done | by constructor]. }
  destruct (fileFilter m f) as [|message] eqn:Hfilter; simpl in H.
  2:{ simplify_eq. eexists; split; [done | by econstructor]. }
  rewrite Hname in H.
  set (path := Path.join (destination (storage m)) (name f)) in *.
  destruct (decide (path ∈ faulty w)) as [Hbad|Hgood].
  { rewrite writeFile_faulty in H by done. simplify_eq.
    eexists; split; [done | by apply upload_write_failed]. }
  rewrite writeFile_done in H by done.
  destruct (limits_fileSize m <? Z.of_nat (String.length (payload f))) eqn:Hsize.
  - apply Z.ltb_lt in Hsize.
    simpl in H.
    rewrite (unlink_found path (Opaque (payload f))
               (with_files (<[path:=Opaque (payload f)]> (files w)) w)) in H;
      [| done | simpl; apply lookup_insert_eq].
    simpl in H. rewrite delete_insert_eq in H. simplify_eq.
    eexists; split; [done | ]. rewrite with_files_twice. by apply upload_too_large.
  - apply Z.ltb_ge in Hsize. simpl in H. injection H as <- <-.
    eexists; split; [reflexivity | by apply upload_stored].
Qed.

Lemma handler_gallery_no_file env cge body w o w' :
  post_admin_upload_gallery env cge body None w = (Ok o, w') →
  committed o = false ∧ w' = w.
Proof.
  unfold post_admin_upload_gallery. simpl.
  destruct body as [| | | | |props]; simpl; try (intros; by simplify_eq).
  destruct (authorize env _); simpl; intros; by simplify_eq.
Qed.

Lemma handler_gallery_stored env cge body sf c w o w' :
  files w !! file_path sf = Some c →
  file_path sf ∉ faulty w →
  post_admin_upload_gallery env cge body (Some sf) w = (Ok o, w') →
  gallery_effect sf w o w'.
Proof.
  intros Hc Hok H.
  unfold post_admin_upload_gallery in H. simpl in H.
  destruct body as [| | | | |body]; simpl in H;
    try (simplify_eq; by constructor).
  destruct (authorize env _); simpl in H; [|simplify_eq; by constructor].
  rewrite readGallery_run in H.
  destruct (stored GALLERY_FILE default_gallery w) as [| | | | |props] eqn:Hg; simpl in H;
    try (simplify_eq; by constructor).
  destruct (JS.lookup "images" props) as [[| | |s|l|o']|] eqn:Himg; simpl in H;
    try (simplify_eq; by constructor).
  - destruct (10 <=? _); simpl in H; [|simplify_eq; by constructor].
    rewrite (unlink_found _ c) in H by done. simplify_eq. apply gallery_full.
  - destruct (10 <=? Z.of_nat (length l)) eqn:Hlen; simpl in H.
    + rewrite (unlink_found _ c) in H by done. simplify_eq. apply gallery_full.
    + apply Z.leb_gt in Hlen.
      destruct (decide (GALLERY_FILE ∈ faulty w)) as [Hbad|Hgood].
      * unfold writeGallery in H. simpl in H.
        rewrite writeFile_faulty in H by done. simplify_eq. by constructor.
      * unfold writeGallery in H. simpl in H.
        rewrite writeFile_done in H by done. simplify_eq.
        apply (gallery_commit sf w props l); try done. lia.
  - destruct (ge_pure cge (JS.lookup "length" o') 10 w) as [r Hr].
    rewrite Hr in H. destruct r as [[|]|e]; simpl in H.
    + rewrite (unlink_found _ c) in H by done. simplify_eq. apply gallery_full.
    + simplify_eq; by constructor.
    + simplify_eq; by constructor.
Qed.

Lemma handler_hero_no_file env body w o w' :
  post_admin_upload_hero env body None w = (Ok o, w') →
  committed o = false ∧ w' = w.
Proof.
  unfold post_admin_upload_hero. simpl.
  destruct body as [| | | | |props]; simpl; try (intros; by simplify_eq).
  destruct (authorize env _); simpl; intros; by simplify_eq.
Qed.

Lemma handler_hero_stored env body sf w o w' :
  post_admin_upload_hero env body (Some sf) w = (Ok o, w') →
  hero_effect sf w o w'.
Proof.
  intros H. unfold post_admin_upload_hero in H. simpl in H.
  destruct body as [| | | | |body]; simpl in H;
    try (simplify_eq; by constructor).
  destruct (authorize env _); simpl in H; [|simplify_eq; by constructor].
  unfold writeHeroBackground in H. simpl in H.
  destruct (decide (HERO_BG_FILE ∈ faulty w)) as [Hbad|Hgood].
  - rewrite writeFile_faulty in H by done. simplify_eq. by constructor.
  - rewrite writeFile_done in H by done. simplify_eq. by apply hero_commit.
Qed.

(** A handler wrapped in [try]/[catch] always answers. *)
Lemma handler_answers {A} (m : M A) (a : A) w :
  ∃ o w', try_catch m (fun _ => ret a) w = (Ok o, w').
Proof. simpl. destruct (m w) as [[o|e] w']; eauto. Qed.

Lemma gallery_filename rnd f w :
  filename (storage (uploadGallery rnd)) f w = (Ok (gallery_name rnd f w), w).
Proof. reflexivity. Qed.

Lemma hero_filename f w :
  filename (storage uploadHero) f w = (Ok (hero_name f), w).
Proof. reflexivity. Qed.

Lemma image_only_accepts f :
  String.prefix "image/" (mimetype f) = true → image_only f = Accept.
Proof. intros H. unfold image_only. by rewrite H. Qed.

(** Writing or removing an upload leaves the three documents as they are. *)
Lemma metadata_insert_upload dir name c w :
  dir = GALLERY_UPLOADS_DIR ∨ dir = HERO_UPLOADS_DIR →
  metadata (with_files (<[Path.join dir name := c]> (files w)) w) = metadata w.
Proof.
  intros Hdir. destruct (upload_path_not_document dir name Hdir) as (H1 & H2 & H3).
  unfold metadata. simpl. by rewrite !lookup_insert_ne.
Qed.

Lemma metadata_delete_upload dir name w :
  dir = GALLERY_UPLOADS_DIR ∨ dir = HERO_UPLOADS_DIR →
  metadata (with_files (delete (Path.join dir name) (files w)) w) = metadata w.
Proof.
  intros Hdir. destruct (upload_path_not_document dir name Hdir) as (H1 & H2 & H3).
  unfold metadata. simpl. by rewrite !lookup_delete_ne.
Qed.

Lemma with_files_same w : with_files (files w) w = w.
Proof. by destruct w. Qed.

Lemma stored_insert_ne path doc default c disk w :
  path ≠ doc →
  stored doc default (with_files (<[path := c]> disk) w)
  = stored doc default (with_files disk w).
Proof. intros Hne. unfold stored. simpl. by rewrite lookup_insert_ne. Qed.

Lemma stored_delete_ne path doc default disk w :
  path ≠ doc →
  stored doc default (with_files (delete path disk) w)
  = stored doc default (with_files disk w).
Proof. intros Hne. unfold stored. simpl. by rewrite lookup_delete_ne. Qed.

Lemma stored_written doc default v disk w :
  doc ∉ faulty w →
  stored doc default (with_files (<[doc := Document v]> disk) w) = v.
Proof.
  intros Hok. unfold stored. simpl. by rewrite decide_False, lookup_insert_eq.
Qed.

Lemma upload_gallery_answers env cge body file w :
  ∃ o w', post_admin_upload_gallery env cge body file w = (Ok o, w').
Proof. apply handler_answers. Qed.

Lemma upload_hero_answers env body file w :
  ∃ o w', post_admin_upload_hero env body file w = (Ok o, w').
Proof. apply handler_answers. Qed.

(** The gallery route, from request to answer. *)
Lemma gallery_route_cases env cge rnd req w :
  let name := fun f => gallery_name rnd f w in
  ∃ o w',
    admin_upload_gallery env cge rnd req w = (Ok o, w')
    ∧ ((∃ e, o = Passed e ∧ upload_effect (uploadGallery rnd) req name w (inl e) w')
       ∨ (upload_effect (uploadGallery rnd) req name w (inr None) w'
          ∧ committed o = false)
       ∨ (∃ sf w1,
            upload_effect (uploadGallery rnd) req name w (inr (Some sf)) w1
            ∧ gallery_effect sf w1 o w')).
Proof.
  intros name.
  unfold admin_upload_gallery, route. simpl.
  destruct (single (uploadGallery rnd) req w) as [r w1] eqn:Hsingle.
  apply (single_effect _ _ name) in Hsingle; [| intros f; apply gallery_filename].
  destruct Hsingle as (a & -> & Heff).
  destruct a as [e | [sf|]].
  - simpl. eexists _, _. split; [reflexivity |]. left. eauto.
  - destruct (upload_gallery_answers env cge (body req) (Some sf) w1) as (o & w' & Hrun).
    rewrite Hrun. eexists _, _. split; [reflexivity |]. right. right.
    exists sf, w1. split; [done |].
    inversion Heff as [| | | |f Hf Hfilter Hgood Hsize path]; subst.
    eapply handler_gallery_stored; [| | exact Hrun]; simpl.
    + apply lookup_insert_eq.
    + done.
  - destruct (upload_gallery_answers env cge (body req) None w1) as (o & w' & Hrun).
    rewrite Hrun. apply handler_gallery_no_file in Hrun as Hno. destruct Hno as [Hc ->].
    eexists _, _. split; [reflexivity |]. right. left. done.
Qed.

(** The hero route, from request to answer. *)
Lemma hero_route_cases env req w :
  ∃ o w',
    admin_upload_hero env req w = (Ok o, w')
    ∧ ((∃ e, o = Passed e ∧ upload_effect uploadHero req hero_name w (inl e) w')
       ∨ (upload_effect uploadHero req hero_name w (inr None) w'
          ∧ committed o = false)
       ∨ (∃ sf w1,
            upload_effect uploadHero req hero_name w (inr (Some sf)) w1
            ∧ hero_effect sf w1 o w')).
Proof.
  unfold admin_upload_hero, route. simpl.
  destruct (single uploadHero req w) as [r w1] eqn:Hsingle.
  apply (single_effect _ _ hero_name) in Hsingle; [| intros f; apply hero_filename].
  destruct Hsingle as (a & -> & Heff).
  destruct a as [e | [sf|]].
  - simpl. eexists _, _. split; [reflexivity |]. left. eauto.
  - destruct (upload_hero_answers env (body req) (Some sf) w1) as (o & w' & Hrun).
    rewrite Hrun. eexists _, _. split; [reflexivity |]. right. right.
    exists sf, w1. split; [done |]. by eapply handler_hero_stored.
  - destruct (upload_hero_answers env (body req) None w1) as (o & w' & Hrun).
    rewrite Hrun. apply handler_hero_no_file in Hrun as Hno. destruct Hno as [Hc ->].
    eexists _, _. split; [reflexivity |]. right. left. done.
Qed.


(** ** Rejected uploads *)

(** C4. An upload whose MIME type does not start with [image/] is turned
    away by the file filter of either route with the error
    [Only image files allowed]: the handler does not run and the world is
    the one before the request, so no file and no document was written. *)
Theorem non_image_upload_rejected (env : option string)
    (cge : json → Z → option bool) (rnd : Z) (req : request) (file : upload)
    (w : world) :
  image req = Some file →
  String.prefix "image/" (mimetype file) = false →
  admin_upload_gallery env cge rnd req w = (Ok RejectedUpload, w)
  ∧ admin_upload_hero env req w = (Ok RejectedUpload, w).
Proof.
  intros Hfile Hmime.
  unfold admin_upload_gallery, admin_upload_hero, route, single, bind, ret.
  rewrite Hfile. simpl. unfold image_only. rewrite Hmime. done.
Qed.

Lemma non_image_upload_rejected_witness :
  let req := Request (JObj [("password", JStr "noblesrhyl1121")])
               (Some (Upload "notes.pdf" "application/pdf" "%PDF-1.4")) in
  let w := World ∅ ∅ 1000000000000 in
  admin_upload_gallery None (fun _ _ => Some false) 7 req w = (Ok RejectedUpload, w)
  ∧ admin_upload_hero None req w = (Ok RejectedUpload, w).
Proof.
  exact (non_image_upload_rejected None (fun _ _ => Some false) 7
           (Request (JObj [("password", JStr "noblesrhyl1121")])
              (Some (Upload "notes.pdf" "application/pdf" "%PDF-1.4")))
           (Upload "notes.pdf" "application/pdf" "%PDF-1.4")
           (World ∅ ∅ 1000000000000) eq_refl eq_refl).
Defined.

(** ** All or nothing *)

(** What does hold of every upload. Either route always answers. When it
    answers 200 the payload lies on the disk under the name recorded in the
    document the route has written (the entry appended to the gallery, or the
    new hero record), and the other documents are as before. With any other
    answer the three documents are exactly as before the request. When the
    write of an accepted image fails, the answer is the storage error, given
    to [next], and the world is unchanged: the handler that records the file
    never runs. *)
Lemma uploads_commit_or_keep_metadata (env : option string)
    (cge : json → Z → option bool) (rnd : Z) (req : request) (w : world) :
  (∃ o w',
     admin_upload_gallery env cge rnd req w = (Ok o, w')
     ∧ (committed o = false → metadata w' = metadata w)
     ∧ (committed o = true →
        ∃ f props l description,
          let name := gallery_name rnd f w in
          let path := Path.join GALLERY_UPLOADS_DIR name in
          let entry :=
            image_entry (StoredFile name path (originalname f)) description (clock w) in
          image req = Some f
          ∧ o = Sent 200 (JObj [("success", JBool true); ("image", entry)])
          ∧ files w' !! path = Some (Opaque (payload f))
          ∧ readGallery w = (Ok (JObj props), w)
          ∧ JS.lookup "images" props = Some (JArr l)
          ∧ files w' !! GALLERY_FILE
            = Some (Document (JObj (JS.assign "images" (JArr (l ++ [entry])) props)))
          ∧ files w' !! DATA_FILE = files w !! DATA_FILE
          ∧ files w' !! HERO_BG_FILE = files w !! HERO_BG_FILE)
     ∧ (∀ f, image req = Some f →
          String.prefix "image/" (mimetype f) = true →
          Path.join GALLERY_UPLOADS_DIR (gallery_name rnd f w) ∈ faulty w →
          o = StorageError (EIO (Path.join GALLERY_UPLOADS_DIR (gallery_name rnd f w)))
          ∧ w' = w))
  ∧ (∃ o w',
       admin_upload_hero env req w = (Ok o, w')
       ∧ (committed o = false → metadata w' = metadata w)
       ∧ (committed o = true →
          ∃ f,
            let name := hero_name f in
            let path := Path.join HERO_UPLOADS_DIR name in
            let record :=
              hero_record (StoredFile name path (originalname f)) (clock w) in
            image req = Some f
            ∧ o = Sent 200 (JObj [("success", JBool true); ("hero", record)])
            ∧ files w' !! path = Some (Opaque (payload f))
            ∧ files w' !! HERO_BG_FILE = Some (Document record)
            ∧ files w' !! DATA_FILE = files w !! DATA_FILE
            ∧ files w' !! GALLERY_FILE = files w !! GALLERY_FILE)
       ∧ (∀ f, image req = Some f →
            String.prefix "image/" (mimetype f) = true →
            Path.join HERO_UPLOADS_DIR (hero_name f) ∈ faulty w →
            o = StorageError (EIO (Path.join HERO_UPLOADS_DIR (hero_name f)))
            ∧ w' = w)).
Proof.
  split.
  { destruct (gallery_route_cases env cge rnd req w) as (o & w' & Hrun & Hcases).
    exists o, w'. split; [exact Hrun |].
    destruct Hcases as [(e & -> & Heff) | [[Heff Hc] | (sf & w1 & Heff & Hh)]].
    - inversion Heff as [| f message Hf Hfilter | f Hf Hfilter Hbad
                         | f Hf Hfilter Hgood Hsize |]; subst; simpl.
      + split; [done |]. split; [done |]. intros f' Hf' Hmime _.
        rewrite Hf in Hf'. injection Hf' as <-.
        apply image_only_accepts in Hmime. simpl in Hfilter. congruence.
      + split; [done |]. split; [done |]. intros f' Hf' _ _.
        rewrite Hf in Hf'. by injection Hf' as <-.
      + split; [intros _; apply metadata_delete_upload; by left |].
        split; [done |]. intros f' Hf' _ Hbad.
        rewrite Hf in Hf'. injection Hf' as <-. done.
    - inversion Heff as [Hf | | | |]; subst.
      split; [done |]. split; [congruence |]. intros f Hf'. congruence.
    - inversion Heff as [| | | |f Hf Hfilter Hgood Hsize path]; subst. simpl in *.
      assert (Hdocs := upload_path_not_document GALLERY_UPLOADS_DIR
                         (gallery_name rnd f w) (or_introl eq_refl)).
      destruct Hdocs as (Hd1 & Hd2 & Hd3).
      split; [| split].
      + intros Hc. inversion Hh as [o' Hc' | | props l description Hg Himg Hlen Hok entry]; subst.
        * apply metadata_insert_upload. by left.
        * rewrite with_files_twice. simpl. rewrite delete_insert_eq.
          apply metadata_delete_upload. by left.
        * done.
      + intros Hc. inversion Hh as [o' Hc' | | props l description Hg Himg Hlen Hok entry]; subst.
        * congruence.
        * done.
        * exists f, props, l, description. simpl.
          rewrite stored_insert_ne, with_files_same in Hg by done.
          split; [done |]. split; [done |].
          split; [by rewrite lookup_insert_ne, lookup_insert_eq |].
          split; [by rewrite readGallery_run, Hg |].
          split; [done |].
          split; [by rewrite lookup_insert_eq |].
          by rewrite !lookup_insert_ne.
      + intros f' Hf' _ Hbad. rewrite Hf in Hf'. injection Hf' as <-. done.
  }
  { destruct (hero_route_cases env req w) as (o & w' & Hrun & Hcases).
    exists o, w'. split; [exact Hrun |].
    destruct Hcases as [(e & -> & Heff) | [[Heff Hc] | (sf & w1 & Heff & Hh)]].
    - inversion Heff as [| f message Hf Hfilter | f Hf Hfilter Hbad
                         | f Hf Hfilter Hgood Hsize |]; subst; simpl.
      + split; [done |]. split; [done |]. intros f' Hf' Hmime _.
        rewrite Hf in Hf'. injection Hf' as <-.
        apply image_only_accepts in Hmime. simpl in Hfilter. congruence.
      + split; [done |]. split; [done |]. intros f' Hf' _ _.
        rewrite Hf in Hf'. by injection Hf' as <-.
      + split; [intros _; apply metadata_delete_upload; by right |].
        split; [done |]. intros f' Hf' _ Hbad.
        rewrite Hf in Hf'. injection Hf' as <-. done.
    - inversion Heff as [Hf | | | |]; subst.
      split; [done |]. split; [congruence |]. intros f Hf'. congruence.
    - inversion Heff as [| | | |f Hf Hfilter Hgood Hsize path]; subst. simpl in *.
      assert (Hdocs := upload_path_not_document HERO_UPLOADS_DIR
                         (hero_name f) (or_intror eq_refl)).
      destruct Hdocs as (Hd1 & Hd2 & Hd3).
      split; [| split].
      + intros Hc. inversion Hh as [o' Hc' | Hok record]; subst.
        * apply metadata_insert_upload. by right.
        * done.
      + intros Hc. inversion Hh as [o' Hc' | Hok record]; subst.
        * congruence.
        * exists f. simpl.
          split; [done |]. split; [done |].
          split; [by rewrite lookup_insert_ne, lookup_insert_eq |].
          split; [by rewrite lookup_insert_eq |].
          assert (HERO_BG_FILE ≠ DATA_FILE ∧ HERO_BG_FILE ≠ GALLERY_FILE) as [? ?] by done.
          by rewrite !lookup_insert_ne.
      + intros f' Hf' _ Hbad. rewrite Hf in Hf'. injection Hf' as <-. done.
  }
Qed.

(** C8. A refused upload is not undone. Multer has stored the file by the
    time the handler refuses the request, and of the refusals only the one
    for a full gallery removes it again. With a wrong password the hero
    route answers 401 and leaves the hero record as it was, yet the image
    that record names now holds the bytes of the refused upload; the gallery
    route answers 401 and leaves the file on the disk with no entry for it.
    The request refused on a full gallery, next to them, leaves no file. *)
Theorem refused_upload_is_not_undone :
  let guess :=
    Request (JObj [("password", JStr "guess")])
      (Some (Upload "intruder.jpg" "image/jpeg" "SECOND")) in
  let image := "uploads/hero/hero-background.jpg" in
  let record := hero_record (StoredFile "hero-background.jpg" image "field.jpg") 1000 in
  let w := World {[ HERO_BG_FILE := Document record; image := Opaque "FIRST" ]} ∅ 5000 in
  (∃ w',
     admin_upload_hero None guess w = (Ok Unauthorized, w')
     ∧ readHeroBackground w = (Ok record, w)
     ∧ readHeroBackground w' = (Ok record, w')
     ∧ files w !! image = Some (Opaque "FIRST")
     ∧ files w' !! image = Some (Opaque "SECOND"))
  ∧ (∃ w',
       admin_upload_gallery None (fun _ _ => Some false) 42 guess (World ∅ ∅ 5000)
       = (Ok Unauthorized, w')
       ∧ readGallery w' = (Ok (JObj [("images", JArr [])]), w')
       ∧ files w' !! "uploads/gallery/gallery-5000-42.jpg" = Some (Opaque "SECOND"))
  ∧ (∃ w',
       admin_upload_gallery None (fun _ _ => Some false) 42 sale_request full_world
       = (Ok GalleryFull, w')
       ∧ files w' !! "uploads/gallery/gallery-1000000000000-42.jpg" = None).
Proof.
  split; [| split].
  - eexists. split; [vm_compute; reflexivity |].
    repeat split; vm_compute; reflexivity.
  - eexists. split; [vm_compute; reflexivity |].
    split; vm_compute; reflexivity.
  - eexists. split; [vm_compute; reflexivity |].
    vm_compute; reflexivity.
Qed.

(** ** An accepted upload, step by step *)

Lemma single_stores m req f name w :
  image req = Some f →
  fileFilter m f = Accept →
  filename (storage m) f w = (Ok name, w) →
  Path.join (destination (storage m)) name ∉ faulty w →
  Z.of_nat (String.length (payload f)) ≤ limits_fileSize m →
  single m req w
  = (Ok (inr (Some (StoredFile name (Path.join (destination (storage m)) name)
                      (originalname f)))),
     with_files (<[Path.join (destination (storage m)) name := Opaque (payload f)]> (files w)) w).
Proof.
  intros Hf Hfilter Hname Hgood Hsize.
  unfold single. rewrite Hf, Hfilter. simpl. rewrite Hname.
  rewrite writeFile_done by done.
  apply Z.ltb_ge in Hsize. by rewrite Hsize.
Qed.

Lemma handler_gallery_accepts env cge props sf c w gprops l :
  authorize env (JS.lookup "password" props) = true →
  files w !! file_path sf = Some c →
  file_path sf ∉ faulty w →
  GALLERY_FILE ∉ faulty w →
  stored GALLERY_FILE default_gallery w = JObj gprops →
  JS.lookup "images" gprops = Some (JArr l) →
  post_admin_upload_gallery env cge (JObj props) (Some sf) w
  = if 10 <=? Z.of_nat (length l)
    then (Ok GalleryFull, with_files (delete (file_path sf) (files w)) w)
    else
      let entry :=
        image_entry sf (JS.or_else (JS.lookup "description" props) (JStr "")) (clock w) in
      (Ok (Sent 200 (JObj [("success", JBool true); ("image", entry)])),
       with_files
         (<[GALLERY_FILE :=
              Document (JObj (JS.assign "images" (JArr (l ++ [entry])) gprops))]>
            (files w)) w).
Proof.
  intros Hauth Hc Hgood Hdoc Hg Himg.
  unfold post_admin_upload_gallery. simpl. rewrite Hauth. simpl.
  rewrite readGallery_run, Hg. simpl. rewrite Himg. simpl.
  destruct (10 <=? Z.of_nat (length l)); simpl.
  - by rewrite (unlink_found _ c).
  - unfold writeGallery. simpl. by rewrite writeFile_done.
Qed.

Lemma handler_hero_accepts env props sf w :
  authorize env (JS.lookup "password" props) = true →
  HERO_BG_FILE ∉ faulty w →
  post_admin_upload_hero env (JObj props) (Some sf) w
  = (Ok (Sent 200 (JObj [("success", JBool true); ("hero", hero_record sf (clock w))])),
     with_files (<[HERO_BG_FILE := Document (hero_record sf (clock w))]> (files w)) w).
Proof.
  intros Hauth Hdoc.
  unfold post_admin_upload_hero. simpl. rewrite Hauth. simpl.
  unfold writeHeroBackground. simpl. by rewrite writeFile_done.
Qed.

Lemma entries_pushed props l' :
  entries (JObj (JS.assign "images" (JArr l') props)) = Some l'.
Proof. unfold entries. by rewrite lookup_assign_eq. Qed.

(** ** The gallery limit *)

(** C1. A stored gallery of at most ten entries still has at most ten after
    any request to the gallery route, and the route always answers. For an
    authorized request with an image within the size limit, and no I/O fault
    on the two paths involved: while the gallery has fewer than ten entries
    the upload is answered 200, its entry is appended and its file is on the
    disk; when the gallery has ten, the answer is [Gallery full (10 max)],
    the gallery document is as before and the file just received is removed
    again, so the disk holds nothing under its path. *)
Theorem gallery_holds_at_most_ten (env : option string)
    (cge : json → Z → option bool) (rnd : Z) (req : request) (w : world)
    (g : json) (l : list json) :
  readGallery w = (Ok g, w) →
  entries g = Some l →
  (length l ≤ 10)%nat →
  ∃ o w' g' l',
    admin_upload_gallery env cge rnd req w = (Ok o, w')
    ∧ readGallery w' = (Ok g', w')
    ∧ entries g' = Some l'
    ∧ (length l' ≤ 10)%nat
    ∧ ∀ f,
        let path := Path.join GALLERY_UPLOADS_DIR (gallery_name rnd f w) in
        image req = Some f →
        authorized env req →
        acceptable (5 * 1024 * 1024) f →
        path ∉ faulty w →
        GALLERY_FILE ∉ faulty w →
        ((length l < 10)%nat →
           ∃ entry,
             o = Sent 200 (JObj [("success", JBool true); ("image", entry)])
             ∧ l' = l ++ [entry]
             ∧ files w' !! path = Some (Opaque (payload f)))
        ∧ (length l = 10%nat →
             o = GalleryFull
             ∧ g' = g
             ∧ files w' !! GALLERY_FILE = files w !! GALLERY_FILE
             ∧ files w' !! path = None
             ∧ files w' = delete path (files w)).
Proof.
  intros Hread Hentries Hinv.
  rewrite readGallery_run in Hread. injection Hread as Hg.
  destruct (gallery_route_cases env cge rnd req w) as (o & w' & Hrun & Hcases).
  assert (Hafter : ∃ l', entries (stored GALLERY_FILE default_gallery w') = Some l'
                         ∧ (length l' ≤ 10)%nat).
  { destruct Hcases as [(e & -> & Heff) | [[Heff Hc] | (sf & w1 & Heff & Hh)]].
    - inversion Heff as [| | | f Hf Hfilter Hgood Hsize |]; subst w';
        try (exists l; by rewrite Hg).
      destruct (upload_path_not_document GALLERY_UPLOADS_DIR
                  (gallery_name rnd f w) (or_introl eq_refl)) as (_ & Hd & _).
      exists l. simpl in *. by rewrite stored_delete_ne, with_files_same, Hg.
    - inversion Heff; subst w'. exists l. by rewrite Hg.
    - inversion Heff as [| | | |f Hf Hfilter Hgood Hsize path]; subst sf w1. simpl in *.
      destruct (upload_path_not_document GALLERY_UPLOADS_DIR
                  (gallery_name rnd f w) (or_introl eq_refl)) as (_ & Hd & _).
      inversion Hh as [o' Hc' | | gprops l0 description Hg0 Himg Hlen Hok entry];
        subst o w'.
      + exists l. by rewrite stored_insert_ne, with_files_same, Hg.
      + exists l. rewrite with_files_twice. simpl. rewrite delete_insert_eq.
        by rewrite stored_delete_ne, with_files_same, Hg.
      + rewrite with_files_twice.
        rewrite stored_written by done. rewrite entries_pushed.
        eexists; split; [reflexivity |]. rewrite length_app. simpl. lia. }
  destruct Hafter as (l' & Hentries' & Hinv').
  exists o, w', (stored GALLERY_FILE default_gallery w'), l'.
  split; [exact Hrun |]. split; [apply readGallery_run |].
  split; [exact Hentries' |]. split; [exact Hinv' |].
  intros f path Hf (props & Hbody & Hauth) [Hmime Hsize] Hgood Hdoc.
  destruct (upload_path_not_document GALLERY_UPLOADS_DIR
              (gallery_name rnd f w) (or_introl eq_refl)) as (_ & Hd & _).
  fold path in Hd.
  assert (Hg1 : ∃ gprops, g = JObj gprops ∧ JS.lookup "images" gprops = Some (JArr l)).
  { unfold entries in Hentries. destruct g as [| | | | |gprops]; try done.
    exists gprops. split; [done |].
    destruct (JS.lookup "images" gprops) as [[| | | |images|]|]; try done.
    by injection Hentries as ->. }
  destruct Hg1 as (gprops & -> & Himg).
  unfold admin_upload_gallery, route in Hrun. simpl in Hrun.
  rewrite (single_stores (uploadGallery rnd) req f (gallery_name rnd f w)) in Hrun;
    [| done | by apply image_only_accepts | done | done | done].
  rewrite Hbody in Hrun. simpl in Hrun.
  rewrite (handler_gallery_accepts env cge props _ (Opaque (payload f)) _ gprops l)
    in Hrun; [| done | apply lookup_insert_eq | done | done
              | by rewrite stored_insert_ne, with_files_same | done].
  split.
  - intros Hlt.
    destruct (10 <=? Z.of_nat (length l)) eqn:Hcmp; [apply Z.leb_le in Hcmp; lia |].
    simpl in Hrun. injection Hrun as <- <-.
    rewrite with_files_twice in Hentries'.
    rewrite stored_written, entries_pushed in Hentries' by done.
    injection Hentries' as <-.
    eexists. split; [reflexivity |]. split; [reflexivity |].
    simpl. by rewrite lookup_insert_ne, lookup_insert_eq.
  - intros Heq.
    destruct (10 <=? Z.of_nat (length l)) eqn:Hcmp; [| apply Z.leb_gt in Hcmp; lia].
    injection Hrun as <- <-. rewrite with_files_twice. simpl files.
    rewrite delete_insert_eq.
    split; [done |].
    split; [by rewrite stored_delete_ne, with_files_same by done |].
    split; [by rewrite lookup_delete_ne |].
    split; [apply lookup_delete_eq | done].
Qed.

Lemma gallery_holds_at_most_ten_witness :
  ∃ w',
    admin_upload_gallery None (fun _ _ => Some false) 42 sale_request full_world
    = (Ok GalleryFull, w')
    ∧ files w' = delete "uploads/gallery/gallery-1000000000000-42.jpg" (files full_world).
Proof.
  destruct (gallery_holds_at_most_ten None (fun _ _ => Some false) 42 sale_request
              full_world (JObj [("images", JArr ten_entries)]) ten_entries)
    as (o & w' & g' & l' & Hrun & _ & _ & _ & Hvalid).
  - vm_compute. reflexivity.
  - reflexivity.
  - simpl. lia.
  - destruct (Hvalid sale_photo) as [_ Hfull].
    + reflexivity.
    + eexists. split; reflexivity.
    + split; [reflexivity | vm_compute; discriminate].
    + apply not_elem_of_empty.
    + apply not_elem_of_empty.
    + destruct Hfull as (-> & _ & _ & _ & Hfiles); [reflexivity |].
      exists w'. split; [exact Hrun | exact Hfiles].
Defined.

(** ** The hero image *)

Lemma hero_upload_once env req f w :
  image req = Some f →
  authorized env req →
  acceptable (10 * 1024 * 1024) f →
  Path.join HERO_UPLOADS_DIR (hero_name f) ∉ faulty w →
  HERO_BG_FILE ∉ faulty w →
  let path := Path.join HERO_UPLOADS_DIR (hero_name f) in
  let record := hero_record (StoredFile (hero_name f) path (originalname f)) (clock w) in
  let w' :=
    with_files (<[HERO_BG_FILE := Document record]>
                  (<[path := Opaque (payload f)]> (files w))) w in
  admin_upload_hero env req w
  = (Ok (Sent 200 (JObj [("success", JBool true); ("hero", record)])), w')
  ∧ readHeroBackground w' = (Ok record, w').
Proof.
  intros Hf (props & Hbody & Hauth) [Hmime Hsize] Hgood Hdoc path record w'.
  split.
  - unfold admin_upload_hero, route. simpl.
    rewrite (single_stores uploadHero req f (hero_name f));
      [| done | by apply image_only_accepts | done | done | done].
    rewrite Hbody. simpl.
    by rewrite (handler_hero_accepts env props).
  - rewrite readHeroBackground_run. unfold w'. by rewrite stored_written.
Qed.

(** C5. An accepted hero upload writes its payload to the one path
    [uploads/hero/hero-background<ext>], [<ext>] being the extension of the
    original name, whatever that path held before, and makes the hero
    document exactly the record of this upload. After two such uploads in a
    row the document is the record of the second alone. *)
Theorem hero_upload_replaces (env : option string) (req1 req2 : request)
    (f1 f2 : upload) (d : N) (w : world) :
  image req1 = Some f1 → authorized env req1 → acceptable (10 * 1024 * 1024) f1 →
  image req2 = Some f2 → authorized env req2 → acceptable (10 * 1024 * 1024) f2 →
  let name1 := "hero-background" +:+ Path.extname (originalname f1) in
  let name2 := "hero-background" +:+ Path.extname (originalname f2) in
  let path1 := Path.join HERO_UPLOADS_DIR name1 in
  let path2 := Path.join HERO_UPLOADS_DIR name2 in
  path1 ∉ faulty w → path2 ∉ faulty w → HERO_BG_FILE ∉ faulty w →
  let record1 :=
    JObj [("filename", JStr name1); ("originalName", JStr (originalname f1));
          ("uploadedAt", JStr (Date.toISOString (clock w)))] in
  let record2 :=
    JObj [("filename", JStr name2); ("originalName", JStr (originalname f2));
          ("uploadedAt", JStr (Date.toISOString (clock w + Z.of_N d)))] in
  ∃ w1 w2,
    admin_upload_hero env req1 w
    = (Ok (Sent 200 (JObj [("success", JBool true); ("hero", record1)])), w1)
    ∧ files w1
      = <[HERO_BG_FILE := Document record1]> (<[path1 := Opaque (payload f1)]> (files w))
    ∧ readHeroBackground w1 = (Ok record1, w1)
    ∧ admin_upload_hero env req2 (later d w1)
      = (Ok (Sent 200 (JObj [("success", JBool true); ("hero", record2)])), w2)
    ∧ files w2
      = <[HERO_BG_FILE := Document record2]> (<[path2 := Opaque (payload f2)]> (files w1))
    ∧ files w2 !! path2 = Some (Opaque (payload f2))
    ∧ readHeroBackground w2 = (Ok record2, w2).
Proof.
  intros Hf1 Hauth1 Hacc1 Hf2 Hauth2 Hacc2 name1 name2 path1 path2
    Hgood1 Hgood2 Hdoc record1 record2.
  destruct (hero_upload_once env req1 f1 w Hf1 Hauth1 Hacc1 Hgood1 Hdoc)
    as [Hrun1 Hread1].
  set (w1 := with_files (<[HERO_BG_FILE := Document record1]>
                            (<[path1 := Opaque (payload f1)]> (files w))) w).
  destruct (hero_upload_once env req2 f2 (later d w1) Hf2 Hauth2 Hacc2 Hgood2 Hdoc)
    as [Hrun2 Hread2].
  eexists _, _. split; [exact Hrun1 |]. split; [reflexivity |].
  split; [exact Hread1 |]. split; [exact Hrun2 |]. split; [reflexivity |].
  split; [| exact Hread2].
  simpl. rewrite lookup_insert_ne; [apply lookup_insert_eq |].
  destruct (upload_path_not_document HERO_UPLOADS_DIR name2 (or_intror eq_refl))
    as (_ & _ & Hd). by intros E.
Qed.

Lemma hero_upload_replaces_witness :
  ∃ w1 w2,
    admin_upload_hero None hero_request_1 (World ∅ ∅ 0)
    = (Ok (Sent 200
             (JObj [("success", JBool true);
                    ("hero",
                     JObj [("filename", JStr "hero-background.jpg");
                           ("originalName", JStr "field.jpg");
                           ("uploadedAt", JStr "1970-01-01T00:00:00.000Z")])])), w1)
    ∧ files w2 !! "uploads/hero/hero-background.jpg" = Some (Opaque "SECOND")
    ∧ readHeroBackground w2
      = (Ok (JObj [("filename", JStr "hero-background.jpg");
                   ("originalName", JStr "stalls.jpg");
                   ("uploadedAt", JStr "1970-01-01T00:00:05.000Z")]), w2).
Proof.
  destruct (hero_upload_replaces None hero_request_1 hero_request_2
              (Upload "field.jpg" "image/jpeg" "FIRST")
              (Upload "stalls.jpg" "image/jpeg" "SECOND") 5000 (World ∅ ∅ 0))
    as (w1 & w2 & Hrun1 & _ & _ & _ & _ & Hfile & Hread).
  - reflexivity.
  - eexists. split; reflexivity.
  - split; [reflexivity | vm_compute; discriminate].
  - reflexivity.
  - eexists. split; reflexivity.
  - split; [reflexivity | vm_compute; discriminate].
  - apply not_elem_of_empty.
  - apply not_elem_of_empty.
  - apply not_elem_of_empty.
  - exists w1, w2. split; [exact Hrun1 |]. split; [exact Hfile | exact Hread].
Defined.

(** ** Writing the status *)

Lemma writeStatus_run data w :
  DATA_FILE ∉ faulty w →
  let statusData :=
    JObj (JS.assign "lastUpdated" (JStr (Date.toISOString (clock w))) data) in
  writeStatus data w
  = (Ok statusData, with_files (<[DATA_FILE := Document statusData]> (files w)) w).
Proof.
  intros Hok statusData. unfold writeStatus. simpl. by rewrite writeFile_done.
Qed.

Lemma readStatus_written v disk w d :
  DATA_FILE ∉ faulty w →
  let w' := later d (with_files (<[DATA_FILE := Document v]> disk) w) in
  readStatus w' = (Ok v, w').
Proof.
  intros Hok w'. rewrite readStatus_run. do 2 f_equal.
  unfold stored, w'. simpl. by rewrite decide_False, lookup_insert_eq.
Qed.

(** C3. For every [isOpen] and [notice], on a status file that can be
    written, [writeStatus] stamps the record with the time of the call,
    replaces whatever the file held with the whole record and returns it. A
    later [readStatus] returns that record, so the [isOpen] and [notice] just
    written, and its [lastUpdated] is the rendering of an instant that is not
    before the time [clock w0] observed ahead of the call. *)
Theorem writeStatus_then_readStatus (isOpen : bool) (notice : json) (w0 : world)
    (before_call before_read : N) :
  DATA_FILE ∉ faulty w0 →
  let w := later before_call w0 in
  let record :=
    JObj [("status", JBool isOpen); ("notice", notice);
          ("lastUpdated", JStr (Date.toISOString (clock w)))] in
  let w' := with_files (<[DATA_FILE := Document record]> (files w)) w in
  writeStatus [("status", JBool isOpen); ("notice", notice)] w = (Ok record, w')
  ∧ clock w0 ≤ clock w
  ∧ readStatus (later before_read w') = (Ok record, later before_read w').
Proof.
  intros Hok w record w'.
  split; [by rewrite writeStatus_run |].
  split; [simpl; lia |].
  by apply readStatus_written.
Qed.

Lemma writeStatus_then_readStatus_witness :
  let record :=
    JObj [("status", JBool true); ("notice", JStr "Open till 2pm");
          ("lastUpdated", JStr "2001-09-09T01:46:40.250Z")] in
  ∃ w',
    writeStatus [("status", JBool true); ("notice", JStr "Open till 2pm")]
      (later 250 (World ∅ ∅ 1000000000000)) = (Ok record, w')
    ∧ readStatus (later 60000 w') = (Ok record, later 60000 w').
Proof.
  destruct (writeStatus_then_readStatus true (JStr "Open till 2pm")
              (World ∅ ∅ 1000000000000) 250 60000) as (Hwrite & _ & Hread).
  - apply not_elem_of_empty.
  - eexists. split; [exact Hwrite | exact Hread].
Defined.

(** ** Updating the status *)

(** C10. An authorized status update stores [status: true] exactly when the
    submitted [status] is the boolean [true] or the string ['true']; any other
    value, ['TRUE'], ['1'], [1] and an absent one among them, is stored as
    [false]. An absent [notice] is stored as the empty string. *)
Theorem update_status_coerces (env : option string)
    (props : list (string * json)) (img : option upload) (w : world) :
  authorize env (JS.lookup "password" props) = true →
  DATA_FILE ∉ faulty w →
  let status := JS.lookup "status" props in
  let notice := JS.lookup "notice" props in
  ∃ isOpen text,
    let record :=
      JObj [("status", JBool isOpen); ("notice", text);
            ("lastUpdated", JStr (Date.toISOString (clock w)))] in
    admin_update_status env (Request (JObj props) img) w
    = (Ok (Sent 200 (JObj [("success", JBool true); ("data", record)])),
       with_files (<[DATA_FILE := Document record]> (files w)) w)
    ∧ (isOpen = true ↔ status = Some (JBool true) ∨ status = Some (JStr "true"))
    ∧ (status = Some (JStr "TRUE") ∨ status = Some (JStr "1")
       ∨ status = Some (JNum 1) ∨ status = None → isOpen = false)
    ∧ (notice = None → text = JStr "").
Proof.
  intros Hauth Hok status notice.
  exists (JS.strict_eq_string status "true" || JS.strict_eq_true status),
         (JS.or_else notice (JStr "")).
  split.
  { unfold admin_update_status, post_admin_update_status. simpl.
    rewrite Hauth. simpl. by rewrite writeStatus_run. }
  assert (Hiff : JS.strict_eq_string status "true" || JS.strict_eq_true status = true
                 ↔ status = Some (JBool true) ∨ status = Some (JStr "true")).
  { destruct status as [[|[|]| |s| |]|]; simpl;
      try (split; [discriminate | intros [E | E]; discriminate E]).
    - split; [intros _; by left | done].
    - rewrite orb_false_r.
      destruct (String.eqb_spec s "true") as [->|Hne].
      + split; [intros _; by right | done].
      + split; [discriminate | intros [E | E]; [discriminate E | congruence]]. }
  split; [exact Hiff |].
  split.
  - intros H. apply not_true_is_false. rewrite Hiff.
    destruct H as [-> | [-> | [-> | ->]]]; intros [E | E]; discriminate E.
  - by intros ->.
Qed.

Lemma update_status_coerces_witness :
  ∃ w',
    admin_update_status None
      (Request (JObj [("password", JStr "noblesrhyl1121"); ("status", JStr "TRUE")]) None)
      (World ∅ ∅ 0)
    = (Ok (Sent 200
             (JObj [("success", JBool true);
                    ("data",
                     JObj [("status", JBool false); ("notice", JStr "");
                           ("lastUpdated", JStr "1970-01-01T00:00:00.000Z")])])), w').
Proof.
  destruct (update_status_coerces None
              [("password", JStr "noblesrhyl1121"); ("status", JStr "TRUE")]
              None (World ∅ ∅ 0))
    as (isOpen & text & Hrun & _ & Hfalse & Hnotice).
  - reflexivity.
  - apply not_elem_of_empty.
  - rewrite Hfalse in Hrun by (left; reflexivity).
    rewrite Hnotice in Hrun by reflexivity.
    eexists. exact Hrun.
Defined.

(** ** Defaults and round trips *)

Lemma read_missing path default w :
  files w !! path = None → stored path default w = default.
Proof. intros E. unfold stored. rewrite E. by destruct (decide _). Qed.

Lemma read_written path default v disk w d :
  path ∉ faulty w →
  stored path default (later d (with_files (<[path := Document v]> disk) w)) = v.
Proof. intros Hok. unfold stored. simpl. by rewrite decide_False, lookup_insert_eq. Qed.

(** The status default does not survive a round trip once the clock has moved:
    read on an empty disk at time 0, written back one millisecond later (as
    the whole record, or as its [status] and [notice]) and read again, the
    record carries the time of the write. *)
Lemma status_default_round_trip_counterexample :
  let w := World ∅ ∅ 0 in
  let default :=
    [("status", JBool false); ("notice", JStr "");
     ("lastUpdated", JStr "1970-01-01T00:00:00.000Z")] in
  let back :=
    [("status", JBool false); ("notice", JStr "");
     ("lastUpdated", JStr "1970-01-01T00:00:00.001Z")] in
  files w !! DATA_FILE = None
  ∧ readStatus w = (Ok (JObj default), w)
  ∧ ∃ w',
      writeStatus default (later 1 w) = (Ok (JObj back), w')
      ∧ writeStatus [("status", JBool false); ("notice", JStr "")] (later 1 w)
        = (Ok (JObj back), w')
      ∧ readStatus w' = (Ok (JObj back), w')
      ∧ JObj back ≠ JObj default.
Proof.
  split; [reflexivity |]. split; [reflexivity |].
  eexists. split; [vm_compute; reflexivity |].
  split; [vm_compute; reflexivity |].
  split; [vm_compute; reflexivity | discriminate].
Qed.

(** ** The refresh interval of the mobile client *)

Lemma react_intervals navigator r pg :
  Client.intervals (Client.react navigator r pg) = Client.intervals pg.
Proof. destruct r. unfold Client.react. by destruct (Client.getBattery navigator). Qed.

Lemma drain_intervals navigator pg :
  Client.intervals (Client.drain navigator pg) = Client.intervals pg.
Proof.
  unfold Client.drain.
  change (Client.intervals pg)
    with (Client.intervals (Client.Page (Client.intervals pg) [] (Client.dropped pg))) at 2.
  generalize (Client.Page (Client.intervals pg) [] (Client.dropped pg)).
  induction (Client.pending pg) as [|r rs IH]; intros acc; simpl; [done |].
  by rewrite IH, react_intervals.
Qed.

(** C9. [getRefreshInterval] returns 45000 on a slow connection and 30000
    otherwise, whatever the battery. The interval the [then] callback
    computes from the battery level resolves a promise that nothing holds:
    after the reactions have run, the [setInterval] table has gained the one
    entry with the value returned synchronously, and it is the same table for
    every battery, present or not. *)
Theorem battery_interval_discarded (navigator : Client.Navigator) (pg : Client.page) :
  let returned := if Client.isSlowConnection navigator then 45000 else 30000 in
  let pg' := Client.drain navigator (Client.onDOMContentLoaded navigator pg) in
  fst (Client.getRefreshInterval navigator pg) = returned
  ∧ Client.intervals pg' = Client.intervals pg ++ [(Client.loadSettings, returned)]
  ∧ (∀ battery, Client.getBattery navigator = Some battery →
       ∃ earlier, Client.dropped pg' = earlier ++ [Client.battery_interval battery])
  ∧ (∀ other,
       let navigator' :=
         {| Client.connection := Client.connection navigator;
            Client.getBattery := other |} in
       Client.intervals (Client.drain navigator' (Client.onDOMContentLoaded navigator' pg))
       = Client.intervals pg').
Proof.
  intros returned pg'.
  assert (Hint : ∀ nav,
            Client.intervals (Client.drain nav (Client.onDOMContentLoaded nav pg))
            = Client.intervals pg
                ++ [(Client.loadSettings,
                     if Client.isSlowConnection nav then 45000 else 30000)]).
  { intros nav. rewrite drain_intervals.
    unfold Client.onDOMContentLoaded, Client.getRefreshInterval, Client.setInterval.
    by destruct (Client.getBattery nav). }
  split; [reflexivity |].
  split; [apply Hint |].
  split.
  - intros battery Hbattery. unfold pg', Client.drain, Client.onDOMContentLoaded,
      Client.getRefreshInterval, Client.setInterval.
    rewrite Hbattery. simpl. rewrite fold_left_app. simpl.
    unfold Client.react at 1. rewrite Hbattery. simpl. eauto.
  - intros other navigator'. unfold pg'. rewrite !Hint. reflexivity.
Qed.

(** On a fast connection with the battery at 12.5%, the callback computes
    60000 and the page polls every 30000 ms all the same. *)
Example low_battery_still_polls_at_30000 :
  let navigator :=
    {| Client.connection := Some {| Client.effectiveType := Some "4g" |};
       Client.getBattery := Some {| Client.level := 0.125%float |} |} in
  let pg' := Client.drain navigator
               (Client.onDOMContentLoaded navigator (Client.Page [] [] [])) in
  Client.intervals pg' = [(Client.loadSettings, 30000)]
  ∧ Client.dropped pg' = [60000].
Proof. vm_compute. split; reflexivity. Qed.

(** ** Worked examples *)

Example extname_examples :
  Path.extname "a.jpg" = ".jpg"
  ∧ Path.extname "archive.tar.gz" = ".gz"
  ∧ Path.extname ".bashrc" = ""
  ∧ Path.extname "photo" = ""
  ∧ Path.extname ".." = ""
  ∧ Path.extname "..." = "."
  ∧ Path.extname "a." = "."
  ∧ Path.extname "x.y/z" = ""
  ∧ Path.extname "x.y/" = ".y".
Proof. vm_compute. repeat split. Qed.

Example toISOString_examples :
  Date.toISOString 0 = "1970-01-01T00:00:00.000Z"
  ∧ Date.toISOString (-1) = "1969-12-31T23:59:59.999Z"
  ∧ Date.toISOString 1000000000000 = "2001-09-09T01:46:40.000Z"
  ∧ Date.toISOString 1709210096789 = "2024-02-29T12:34:56.789Z"
  ∧ Date.toISOString 253402300800000 = "+010000-01-01T00:00:00.000Z".
Proof. vm_compute. repeat split. Qed.

(** The scenario of the specification: on a fresh store an authorized upload
    of [a.jpg] is recorded under a generated name ending in [.jpg], and the
    gallery then holds exactly that entry. *)
Example first_gallery_upload :
  let entry :=
    JObj [("filename", JStr "gallery-1000000000000-42.jpg");
          ("originalName", JStr "a.jpg"); ("description", JStr "sale");
          ("uploadedAt", JStr "2001-09-09T01:46:40.000Z")] in
  ∃ w',
    admin_upload_gallery None (fun _ _ => Some false) 42 sale_request
      (World ∅ ∅ 1000000000000)
    = (Ok (Sent 200 (JObj [("success", JBool true); ("image", entry)])), w')
    ∧ readGallery w' = (Ok (JObj [("images", JArr [entry])]), w')
    ∧ files w' !! "uploads/gallery/gallery-1000000000000-42.jpg"
      = Some (Opaque "JPEGDATA").
Proof.
  eexists. split; [vm_compute; reflexivity |].
  split; [vm_compute; reflexivity | reflexivity].
Qed.

(** A wrong password is answered 401 after multer has stored the file: the
    three documents are untouched, the upload stays on the disk. *)
Example unauthorized_upload_leaves_file :
  let req :=
    Request (JObj [("password", JStr "guess")])
      (Some (Upload "a.jpg" "image/jpeg" "JPEGDATA")) in
  ∃ w',
    admin_upload_gallery None (fun _ _ => Some false) 42 req (World ∅ ∅ 0)
    = (Ok Unauthorized, w')
    ∧ metadata w' = metadata (World ∅ ∅ 0)
    ∧ files w' !! "uploads/gallery/gallery-0-42.jpg" = Some (Opaque "JPEGDATA").
Proof.
  eexists. split; [vm_compute; reflexivity |].
  split; [reflexivity | reflexivity].
Qed.

(** * Further properties of the server *)

(** ** Requests that do not carry the secret *)

Lemma gallery_handler_denies env cge body file w :
  ¬ (∃ props, body = JObj props ∧ authorize env (JS.lookup "password" props) = true) →
  ∃ o, post_admin_upload_gallery env cge body file w = (Ok o, w) ∧ committed o = false.
Proof.
  intros Hno. unfold post_admin_upload_gallery. simpl.
  destruct body as [| | | | |props]; simpl; try (eexists; split; reflexivity).
  destruct (authorize env (JS.lookup "password" props)) eqn:Hauth; simpl.
  - destruct Hno. eauto.
  - eexists; split; reflexivity.
Qed.

Lemma hero_handler_denies env body file w :
  ¬ (∃ props, body = JObj props ∧ authorize env (JS.lookup "password" props) = true) →
  ∃ o, post_admin_upload_hero env body file w = (Ok o, w) ∧ committed o = false.
Proof.
  intros Hno. unfold post_admin_upload_hero. simpl.
  destruct body as [| | | | |props]; simpl; try (eexists; split; reflexivity).
  destruct (authorize env (JS.lookup "password" props)) eqn:Hauth; simpl.
  - destruct Hno. eauto.
  - eexists; split; reflexivity.
Qed.

Lemma upload_effect_metadata m req name w a w' :
  destination (storage m) = GALLERY_UPLOADS_DIR
  ∨ destination (storage m) = HERO_UPLOADS_DIR →
  upload_effect m req name w a w' → metadata w' = metadata w.
Proof.
  intros Hdir Heff.
  inversion Heff as [| | | f Hf Hfilter Hgood Hsize | f Hf Hfilter Hgood Hsize path];
    subst; try done.
  - by apply metadata_delete_upload.
  - by apply metadata_insert_upload.
Qed.

(** X1. A request whose body does not carry the configured secret in its
    [password] field changes none of the three documents, on any of the three
    admin routes and whatever else it contains; the status route leaves the
    whole world as it is. No such request is answered 200. *)
Theorem without_secret_no_document_changes (env : option string)
    (cge : json → Z → option bool) (rnd : Z) (req : request) (w : world) :
  ¬ authorized env req →
  (∃ o w', admin_upload_gallery env cge rnd req w = (Ok o, w')
           ∧ committed o = false ∧ metadata w' = metadata w)
  ∧ (∃ o w', admin_upload_hero env req w = (Ok o, w')
             ∧ committed o = false ∧ metadata w' = metadata w)
  ∧ (∃ o, admin_update_status env req w = (Ok o, w) ∧ committed o = false).
Proof.
  intros Hno. unfold authorized in Hno.
  split; [| split].
  - unfold admin_upload_gallery, route. simpl.
    destruct (single (uploadGallery rnd) req w) as [r w1] eqn:Hsingle.
    apply (single_effect _ _ (fun f => gallery_name rnd f w)) in Hsingle;
      [| intros f; apply gallery_filename].
    destruct Hsingle as (a & -> & Heff).
    apply upload_effect_metadata in Heff as Hmeta; [| by left].
    destruct a as [e | file]; simpl.
    + eexists _, _. split; [reflexivity |]. by split.
    + destruct (gallery_handler_denies env cge (body req) file w1 Hno) as (o & -> & Hc).
      eexists _, _. split; [reflexivity |]. by split.
  - unfold admin_upload_hero, route. simpl.
    destruct (single uploadHero req w) as [r w1] eqn:Hsingle.
    apply (single_effect _ _ hero_name) in Hsingle; [| intros f; apply hero_filename].
    destruct Hsingle as (a & -> & Heff).
    apply upload_effect_metadata in Heff as Hmeta; [| by right].
    destruct a as [e | file]; simpl.
    + eexists _, _. split; [reflexivity |]. by split.
    + destruct (hero_handler_denies env (body req) file w1 Hno) as (o & -> & Hc).
      eexists _, _. split; [reflexivity |]. by split.
  - unfold admin_update_status, post_admin_update_status. simpl.
    destruct (body req) as [| | | | |props] eqn:Hbody; simpl;
      try (eexists; split; reflexivity).
    destruct (authorize env (JS.lookup "password" props)) eqn:Hauth; simpl.
    + destruct Hno. eauto.
    + eexists; split; reflexivity.
Qed.

Lemma without_secret_no_document_changes_witness :
  ∃ o, admin_update_status None
         (Request (JObj [("password", JStr "noblesrhyl1121 "); ("status", JStr "true")]) None)
         (World ∅ ∅ 0) = (Ok o, World ∅ ∅ 0)
       ∧ committed o = false.
Proof.
  refine (proj2 (proj2 (without_secret_no_document_changes None (fun _ _ => Some false) 0
            (Request (JObj [("password", JStr "noblesrhyl1121 "); ("status", JStr "true")]) None)
            (World ∅ ∅ 0) _))).
  intros (props & Hbody & Hauth). injection Hbody as <-. discriminate Hauth.
Defined.

(** X2. Multer stores the file before the handler looks at the password. A
    request with a wrong [password] that carries an acceptable image is
    answered 401 with the image on the disk all the same: as a new file under
    the gallery directory, and in place of whatever the path
    [uploads/hero/hero-background<ext>] held. *)
Theorem wrong_password_upload_is_stored (env : option string)
    (cge : json → Z → option bool) (rnd : Z) (req : request)
    (props : list (string * json)) (f : upload) (w : world) :
  image req = Some f →
  body req = JObj props →
  authorize env (JS.lookup "password" props) = false →
  String.prefix "image/" (mimetype f) = true →
  (Z.of_nat (String.length (payload f)) ≤ 5 * 1024 * 1024
   → Path.join GALLERY_UPLOADS_DIR (gallery_name rnd f w) ∉ faulty w
   → admin_upload_gallery env cge rnd req w
     = (Ok Unauthorized,
        with_files (<[Path.join GALLERY_UPLOADS_DIR (gallery_name rnd f w)
                      := Opaque (payload f)]> (files w)) w))
  ∧ (Z.of_nat (String.length (payload f)) ≤ 10 * 1024 * 1024
     → Path.join HERO_UPLOADS_DIR
         ("hero-background" +:+ Path.extname (originalname f)) ∉ faulty w
     → admin_upload_hero env req w
       = (Ok Unauthorized,
          with_files (<[Path.join HERO_UPLOADS_DIR
                          ("hero-background" +:+ Path.extname (originalname f))
                        := Opaque (payload f)]> (files w)) w)).
Proof.
  intros Hf Hbody Hauth Hmime. split; intros Hsize Hgood.
  - unfold admin_upload_gallery, route. simpl.
    rewrite (single_stores (uploadGallery rnd) req f (gallery_name rnd f w));
      [| done | by apply image_only_accepts | done | done | done].
    rewrite Hbody. unfold post_admin_upload_gallery. simpl. by rewrite Hauth.
  - unfold admin_upload_hero, route. simpl.
    rewrite (single_stores uploadHero req f (hero_name f));
      [| done | by apply image_only_accepts | done | done | done].
    rewrite Hbody. unfold post_admin_upload_hero. simpl. by rewrite Hauth.
Qed.

Lemma wrong_password_upload_is_stored_witness :
  ∃ w',
    admin_upload_hero None
      (Request (JObj [("password", JStr "guess")])
         (Some (Upload "prank.jpg" "image/jpeg" "PRANK")))
      (World {[ "uploads/hero/hero-background.jpg" := Opaque "FIELD" ]} ∅ 0)
    = (Ok Unauthorized, w')
    ∧ files w' !! "uploads/hero/hero-background.jpg" = Some (Opaque "PRANK").
Proof.
  destruct (wrong_password_upload_is_stored None (fun _ _ => Some false) 0
              (Request (JObj [("password", JStr "guess")])
                 (Some (Upload "prank.jpg" "image/jpeg" "PRANK")))
              [("password", JStr "guess")]
              (Upload "prank.jpg" "image/jpeg" "PRANK")
              (World {[ "uploads/hero/hero-background.jpg" := Opaque "FIELD" ]} ∅ 0))
    as [_ Hhero]; try reflexivity.
  eexists. split.
  - apply Hhero; [vm_compute; discriminate | apply not_elem_of_empty].
  - reflexivity.
Defined.

(** ** Uploads that are too large, or missing *)

Lemma single_too_large m req f name w :
  image req = Some f →
  fileFilter m f = Accept →
  filename (storage m) f w = (Ok name, w) →
  Path.join (destination (storage m)) name ∉ faulty w →
  limits_fileSize m < Z.of_nat (String.length (payload f)) →
  single m req w
  = (Ok (inl (MulterError "LIMIT_FILE_SIZE")),
     with_files (delete (Path.join (destination (storage m)) name) (files w)) w).
Proof.
  intros Hf Hfilter Hname Hgood Hsize.
  unfold single. rewrite Hf, Hfilter. simpl. rewrite Hname.
  rewrite writeFile_done by done.
  apply Z.ltb_lt in Hsize. rewrite Hsize. simpl.
  rewrite (unlink_found _ (Opaque (payload f))); [| done | apply lookup_insert_eq].
  simpl. by rewrite delete_insert_eq.
Qed.

(** X3. An image of more than 5 MiB on the gallery route, or of more than
    10 MiB on the hero route, is refused with multer's [LIMIT_FILE_SIZE]
    whatever the password; the handler does not run and the three documents
    are untouched. The file multer had begun to write is removed, and with it
    whatever the path held before: on the hero route that is the hero image
    with the same extension. *)
Theorem oversized_upload_refused (env : option string)
    (cge : json → Z → option bool) (rnd : Z) (req : request) (f : upload)
    (w : world) :
  image req = Some f →
  String.prefix "image/" (mimetype f) = true →
  let gallery_path := Path.join GALLERY_UPLOADS_DIR (gallery_name rnd f w) in
  let hero_path :=
    Path.join HERO_UPLOADS_DIR ("hero-background" +:+ Path.extname (originalname f)) in
  (5 * 1024 * 1024 < Z.of_nat (String.length (payload f)) →
   gallery_path ∉ faulty w →
   admin_upload_gallery env cge rnd req w
   = (Ok PayloadTooLarge, with_files (delete gallery_path (files w)) w)
   ∧ metadata (with_files (delete gallery_path (files w)) w) = metadata w)
  ∧ (10 * 1024 * 1024 < Z.of_nat (String.length (payload f)) →
     hero_path ∉ faulty w →
     admin_upload_hero env req w
     = (Ok PayloadTooLarge, with_files (delete hero_path (files w)) w)
     ∧ metadata (with_files (delete hero_path (files w)) w) = metadata w).
Proof.
  intros Hf Hmime gallery_path hero_path. split; intros Hsize Hgood.
  - split; [| apply metadata_delete_upload; by left].
    unfold admin_upload_gallery, route. simpl.
    by rewrite (single_too_large (uploadGallery rnd) req f (gallery_name rnd f w));
      [| | apply image_only_accepts | | |].
  - split; [| apply metadata_delete_upload; by right].
    unfold admin_upload_hero, route. simpl.
    by rewrite (single_too_large uploadHero req f (hero_name f));
      [| | apply image_only_accepts | | |].
Qed.

Lemma filler_length n : String.length (filler n) = n.
Proof. induction n as [|n IH]; simpl; [done | by rewrite IH]. Qed.

Lemma oversized_upload_refused_witness :
  let f := Upload "huge.jpg" "image/jpeg" (filler (N.to_nat 10485761)) in
  let w := World {[ "uploads/hero/hero-background.jpg" := Opaque "FIELD" ]} ∅ 0 in
  admin_upload_hero None (Request (JObj [("password", JStr "noblesrhyl1121")]) (Some f)) w
  = (Ok PayloadTooLarge, with_files (delete "uploads/hero/hero-background.jpg" (files w)) w).
Proof.
  intros f w.
  refine (proj1 (proj2 (oversized_upload_refused None (fun _ _ => Some false) 0
              (Request (JObj [("password", JStr "noblesrhyl1121")]) (Some f)) f w
              eq_refl eq_refl) _ _)).
  - change (10 * 1024 * 1024 < Z.of_nat (String.length (filler (N.to_nat 10485761)))).
    rewrite filler_length, N_nat_Z. reflexivity.
  - apply not_elem_of_empty.
Defined.

(** X4. A request without a file leaves the world exactly as it is on both
    upload routes: with the secret it is answered 400 [No file uploaded],
    without it 401, and 500 when the body is [null]. *)
Theorem upload_without_file_changes_nothing (env : option string)
    (cge : json → Z → option bool) (rnd : Z) (req : request) (w : world) :
  image req = None →
  let answer :=
    match body req with
    | JNull => UploadFailed
    | JObj props =>
        if authorize env (JS.lookup "password" props) then NoFile else Unauthorized
    | _ => Unauthorized
    end in
  admin_upload_gallery env cge rnd req w = (Ok answer, w)
  ∧ admin_upload_hero env req w = (Ok answer, w).
Proof.
  intros Hf answer.
  unfold admin_upload_gallery, admin_upload_hero, route, single. rewrite Hf. simpl.
  unfold post_admin_upload_gallery, post_admin_upload_hero, answer. simpl.
  destruct (body req) as [| | | | |props]; simpl; try done.
  destruct (authorize env (JS.lookup "password" props)); done.
Qed.

Lemma upload_without_file_changes_nothing_witness :
  admin_upload_gallery None (fun _ _ => Some false) 0
    (Request (JObj [("password", JStr "noblesrhyl1121")]) None) full_world
  = (Ok NoFile, full_world).
Proof.
  exact (proj1 (upload_without_file_changes_nothing None (fun _ _ => Some false) 0
                  (Request (JObj [("password", JStr "noblesrhyl1121")]) None)
                  full_world eq_refl)).
Defined.

(** ** The gallery over many requests *)

Lemma entries_shape g l :
  entries g = Some l →
  ∃ gprops, g = JObj gprops ∧ JS.lookup "images" gprops = Some (JArr l).
Proof.
  unfold entries. destruct g as [| | | | |gprops]; try done.
  intros H. exists gprops. split; [done |].
  destruct (JS.lookup "images" gprops) as [[| | | |images|]|]; try done.
  by injection H as ->.
Qed.

(** X5. The gallery route only ever appends. Whatever the request, a stored
    gallery with entries [l] has afterwards the entries [l] again or [l]
    followed by one new entry: nothing is removed, replaced or reordered. *)
Theorem gallery_route_only_appends (env : option string)
    (cge : json → Z → option bool) (rnd : Z) (req : request) (w : world)
    (g : json) (l : list json) :
  readGallery w = (Ok g, w) →
  entries g = Some l →
  ∃ o w' g',
    admin_upload_gallery env cge rnd req w = (Ok o, w')
    ∧ readGallery w' = (Ok g', w')
    ∧ (entries g' = Some l ∨ ∃ entry, entries g' = Some (l ++ [entry])).
Proof.
  intros Hread Hentries.
  rewrite readGallery_run in Hread. injection Hread as Hg.
  destruct (gallery_route_cases env cge rnd req w) as (o & w' & Hrun & Hcases).
  exists o, w', (stored GALLERY_FILE default_gallery w').
  split; [exact Hrun |]. split; [apply readGallery_run |].
  destruct Hcases as [(e & -> & Heff) | [[Heff Hc] | (sf & w1 & Heff & Hh)]].
  - left. inversion Heff as [| | | f Hf Hfilter Hgood Hsize |]; subst w';
      try (by rewrite Hg).
    destruct (upload_path_not_document GALLERY_UPLOADS_DIR
                (gallery_name rnd f w) (or_introl eq_refl)) as (_ & Hd & _).
    simpl in *. by rewrite stored_delete_ne, with_files_same, Hg.
  - left. inversion Heff; subst w'. by rewrite Hg.
  - inversion Heff as [| | | |f Hf Hfilter Hgood Hsize path]; subst sf w1. simpl in *.
    destruct (upload_path_not_document GALLERY_UPLOADS_DIR
                (gallery_name rnd f w) (or_introl eq_refl)) as (_ & Hd & _).
    inversion Hh as [o' Hc' | | gprops l0 description Hg0 Himg Hlen Hok entry];
      subst o w'.
    + left. by rewrite stored_insert_ne, with_files_same, Hg.
    + left. rewrite with_files_twice. simpl. rewrite delete_insert_eq.
      by rewrite stored_delete_ne, with_files_same, Hg.
    + right. rewrite with_files_twice.
      rewrite stored_written by done. rewrite entries_pushed.
      rewrite stored_insert_ne, with_files_same in Hg0 by done.
      rewrite <- Hg, Hg0 in Hentries.
      unfold entries in Hentries. rewrite Himg in Hentries.
      injection Hentries as ->. eauto.
Qed.

Lemma gallery_route_only_appends_witness :
  ∃ o w' g',
    admin_upload_gallery None (fun _ _ => Some false) 42 sale_request full_world
    = (Ok o, w')
    ∧ readGallery w' = (Ok g', w')
    ∧ (entries g' = Some ten_entries ∨ ∃ entry, entries g' = Some (ten_entries ++ [entry])).
Proof.
  apply (gallery_route_only_appends None (fun _ _ => Some false) 42 sale_request full_world (JObj [("images", JArr ten_entries)]) ten_entries); [vm_compute; reflexivity | reflexivity].
Defined.

Lemma gallery_route_accepts env cge rnd req f w gprops l :
  image req = Some f →
  authorized env req →
  acceptable (5 * 1024 * 1024) f →
  faulty w = ∅ →
  stored GALLERY_FILE default_gallery w = JObj gprops →
  JS.lookup "images" gprops = Some (JArr l) →
  let path := Path.join GALLERY_UPLOADS_DIR (gallery_name rnd f w) in
  ∃ o w',
    admin_upload_gallery env cge rnd req w = (Ok o, w')
    ∧ faulty w' = ∅
    ∧ if 10 <=? Z.of_nat (length l)
      then o = GalleryFull
           ∧ stored GALLERY_FILE default_gallery w' = JObj gprops
      else committed o = true
           ∧ ∃ entry,
               stored GALLERY_FILE default_gallery w'
               = JObj (JS.assign "images" (JArr (l ++ [entry])) gprops).
Proof.
  intros Hf (props & Hbody & Hauth) [Hmime Hsize] Hfaulty Hg Himg path.
  destruct (upload_path_not_document GALLERY_UPLOADS_DIR
              (gallery_name rnd f w) (or_introl eq_refl)) as (_ & Hd & _).
  fold path in Hd.
  assert (Hgood : ∀ p, p ∉ faulty w) by (intros p; rewrite Hfaulty; apply not_elem_of_empty).
  unfold admin_upload_gallery, route. simpl.
  rewrite (single_stores (uploadGallery rnd) req f (gallery_name rnd f w));
    [| done | by apply image_only_accepts | done | apply Hgood | done].
  rewrite Hbody. simpl.
  rewrite (handler_gallery_accepts env cge props _ (Opaque (payload f)) _ gprops l);
    [| done | apply lookup_insert_eq | apply Hgood | apply Hgood
     | by rewrite stored_insert_ne, with_files_same by done | done].
  destruct (10 <=? Z.of_nat (length l)).
  - eexists _, _. split; [reflexivity |]. split; [done |]. split; [done |].
    rewrite with_files_twice. simpl. rewrite delete_insert_eq.
    by rewrite stored_delete_ne, with_files_same by done.
  - eexists _, _. split; [reflexivity |]. split; [done |]. split; [done |].
    eexists. rewrite with_files_twice. by rewrite stored_written by apply Hgood.
Qed.

(** X6. A run of authorized uploads of acceptable images, on a disk without
    I/O faults, fills the gallery up to ten and no further. Starting from
    [k ≤ 10] entries, the first [10 - k] uploads are answered 200 and every
    later one [Gallery full (10 max)]; after [n] uploads the gallery holds
    [min 10 (k + n)] entries, the old ones first and unchanged. *)
Theorem gallery_session_fills_to_ten (env : option string)
    (cge : json → Z → option bool) (steps : list (N * Z * request))
    (w : world) (g : json) (l : list json) :
  faulty w = ∅ →
  readGallery w = (Ok g, w) →
  entries g = Some l →
  (length l ≤ 10)%nat →
  Forall (fun '(_, _, req) =>
            authorized env req
            ∧ ∃ f, image req = Some f ∧ acceptable (5 * 1024 * 1024) f) steps →
  ∃ os w' g' added,
    gallery_session env cge steps w = (os, w')
    ∧ length os = length steps
    ∧ Forall (fun o => committed o = true) (take (10 - length l) os)
    ∧ Forall (fun o => o = GalleryFull) (drop (10 - length l) os)
    ∧ readGallery w' = (Ok g', w')
    ∧ entries g' = Some (l ++ added)
    ∧ length (l ++ added) = Nat.min 10 (length l + length steps).
Proof.
  intros Hfaulty Hread Hentries Hinv Hsteps.
  rewrite readGallery_run in Hread. injection Hread as Hg.
  destruct (entries_shape g l Hentries) as (gprops & -> & Himg).
  clear Hentries.
  revert w gprops l Hfaulty Hg Himg Hinv.
  induction Hsteps as [|[[d rnd] req] rest (Hauth & f & Hf & Hacc) _ IH];
    intros w gprops l Hfaulty Hg Himg Hinv.
  - exists [], w, (JObj gprops), []. cbn -[Nat.min].
    split; [done |]. split; [done |].
    rewrite take_nil, drop_nil. split; [done |]. split; [done |].
    split; [by rewrite readGallery_run, Hg |].
    rewrite app_nil_r. split; [unfold entries; by rewrite Himg |].
    lia.
  - cbn -[Nat.min].
    destruct (gallery_route_accepts env cge rnd req f (later d w) gprops l)
      as (o & w1 & Hrun & Hfaulty1 & Hstep); try done.
    rewrite Hrun.
    destruct (10 <=? Z.of_nat (length l)) eqn:Hcmp.
    + apply Z.leb_le in Hcmp. assert (length l = 10%nat) as Hten by lia.
      destruct Hstep as [-> Hg1].
      destruct (IH w1 gprops l Hfaulty1 Hg1 Himg Hinv)
        as (os & w' & g' & added & Hsession & Hlen & Htake & Hdrop & Hread' & Hent' & Hcount).
      rewrite Hsession. exists (GalleryFull :: os), w', g', added.
      rewrite Hten in *. cbn -[Nat.min] in *.
      split; [done |]. split; [by rewrite Hlen |].
      split; [done |]. split; [by constructor |].
      split; [done |]. split; [done | lia].
    + apply Z.leb_gt in Hcmp.
      destruct Hstep as [Hc (entry & Hg1)].
      destruct (IH w1 (JS.assign "images" (JArr (l ++ [entry])) gprops) (l ++ [entry])
                  Hfaulty1 Hg1)
        as (os & w' & g' & added & Hsession & Hlen & Htake & Hdrop & Hread' & Hent' & Hcount).
      { apply lookup_assign_eq. }
      { rewrite length_app. simpl. lia. }
      rewrite Hsession. exists (o :: os), w', g', (entry :: added).
      rewrite length_app in *. cbn -[Nat.min Nat.sub] in *.
      replace (10 - length l)%nat with (S (10 - (length l + 1)))%nat by lia.
      split; [done |]. split; [by rewrite Hlen |].
      split; [simpl; by constructor |]. split; [done |].
      split; [done |].
      rewrite <- app_assoc in Hent'. simpl in Hent'.
      split; [done |]. rewrite length_app in *. cbn -[Nat.min] in *. lia.
Qed.

Lemma gallery_session_fills_to_ten_witness :
  ∃ os w' g' added,
    gallery_session None (fun _ _ => Some false)
      (replicate 11 (1%N, 42, sale_request)) (World ∅ ∅ 0) = (os, w')
    ∧ length os = length (replicate 11 (1%N, 42, sale_request))
    ∧ Forall (fun o => committed o = true) (take (10 - length (@nil json)) os)
    ∧ Forall (fun o => o = GalleryFull) (drop (10 - length (@nil json)) os)
    ∧ readGallery w' = (Ok g', w')
    ∧ entries g' = Some ([] ++ added)
    ∧ length ([] ++ added)
      = Nat.min 10 (length (@nil json) + length (replicate 11 (1%N, 42, sale_request))).
Proof.
  apply (gallery_session_fills_to_ten None (fun _ _ => Some false)
           (replicate 11 (1%N, 42, sale_request)) (World ∅ ∅ 0)
           (JObj [("images", JArr [])]) []).
  - reflexivity.
  - reflexivity.
  - reflexivity.
  - simpl. lia.
  - apply Forall_replicate. split.
    + eexists. split; reflexivity.
    + exists sale_photo. split; [reflexivity |].
      split; [reflexivity | vm_compute; discriminate].
Defined.

(** ** The status route and the rest of the disk *)

Lemma update_status_cases env body w :
  ∃ o w',
    post_admin_update_status env body w = (Ok o, w')
    ∧ ((committed o = false ∧ w' = w)
       ∨ (∃ record,
            o = Sent 200 (JObj [("success", JBool true); ("data", record)])
            ∧ (DATA_FILE ∉ faulty w)
            ∧ w' = with_files (<[DATA_FILE := Document record]> (files w)) w)).
Proof.
  unfold post_admin_update_status. simpl.
  destruct body as [| | | | |props]; simpl;
    try (eexists _, _; split; [reflexivity | by left]).
  destruct (authorize env (JS.lookup "password" props)); simpl;
    [| eexists _, _; split; [reflexivity | by left]].
  unfold writeStatus. simpl.
  destruct (decide (DATA_FILE ∈ faulty w)) as [Hbad | Hgood].
  - rewrite writeFile_faulty by done.
    eexists _, _; split; [reflexivity | by left].
  - rewrite writeFile_done by done.
    eexists _, _; split; [reflexivity |]. right. eauto.
Qed.

(** X7. The status route touches nothing but [status.json]: whatever the
    request, every other file of the disk (gallery and hero documents and
    every upload) is as before, and unless the answer is 200 [status.json]
    too is as before. *)
Theorem update_status_touches_only_status_file (env : option string)
    (req : request) (w : world) :
  ∃ o w',
    admin_update_status env req w = (Ok o, w')
    ∧ (∀ path, path ≠ DATA_FILE → files w' !! path = files w !! path)
    ∧ (committed o = false → w' = w).
Proof.
  destruct (update_status_cases env (body req) w) as (o & w' & Hrun & Hcases).
  exists o, w'. split; [exact Hrun |].
  destruct Hcases as [[Hc ->] | (record & -> & Hgood & ->)].
  - by split.
  - split; [| done]. intros path Hne. simpl. by rewrite lookup_insert_ne.
Qed.

(** ** Reading back through the public routes *)

Lemma get_api_status_run w :
  get_api_status w = (Ok (Sent 200 (stored DATA_FILE (default_status (clock w)) w)), w).
Proof. unfold get_api_status. simpl. by rewrite readStatus_run. Qed.

Lemma get_api_gallery_run w :
  get_api_gallery w = (Ok (Sent 200 (stored GALLERY_FILE default_gallery w)), w).
Proof. unfold get_api_gallery. simpl. by rewrite readGallery_run. Qed.

Lemma get_api_hero_background_run w :
  get_api_hero_background w = (Ok (Sent 200 (stored HERO_BG_FILE default_hero w)), w).
Proof. unfold get_api_hero_background. simpl. by rewrite readHeroBackground_run. Qed.

(** X8. What an admin route has answered with 200 is what the public route
    serves afterwards, at any later time: [GET /api/status] replies the
    record of the update, [GET /api/hero-background] the record of the hero
    upload, and [GET /api/gallery] a gallery whose last entry is the image of
    the upload. *)
Theorem get_serves_what_post_answered (env : option string)
    (cge : json → Z → option bool) (rnd : Z) (req : request) (w w' : world)
    (reply : json) (d : N) :
  (admin_update_status env req w = (Ok (Sent 200 reply), w') →
   ∃ record,
     reply = JObj [("success", JBool true); ("data", record)]
     ∧ get_api_status (later d w') = (Ok (Sent 200 record), later d w'))
  ∧ (admin_upload_hero env req w = (Ok (Sent 200 reply), w') →
     ∃ record,
       reply = JObj [("success", JBool true); ("hero", record)]
       ∧ get_api_hero_background (later d w') = (Ok (Sent 200 record), later d w'))
  ∧ (admin_upload_gallery env cge rnd req w = (Ok (Sent 200 reply), w') →
     ∃ entry g earlier,
       reply = JObj [("success", JBool true); ("image", entry)]
       ∧ get_api_gallery (later d w') = (Ok (Sent 200 g), later d w')
       ∧ entries g = Some (earlier ++ [entry])).
Proof.
  split; [| split]; intros Hrun.
  - destruct (update_status_cases env (body req) w) as (o & w1 & Hrun' & Hcases).
    unfold admin_update_status in Hrun. rewrite Hrun in Hrun'.
    injection Hrun' as <- <-.
    destruct Hcases as [[Hc _] | (record & Hreply & Hgood & ->)]; [done |].
    injection Hreply as ->. exists record. split; [done |].
    rewrite get_api_status_run. do 2 f_equal.
    unfold stored. simpl. by rewrite decide_False, lookup_insert_eq.
  - destruct (hero_route_cases env req w) as (o & w1 & Hrun' & Hcases).
    rewrite Hrun in Hrun'. injection Hrun' as <- <-.
    destruct Hcases as [(e & He & _) | [[_ Hc] | (sf & w1 & Heff & Hh)]]; try done.
    inversion Hh as [o' Hc' | Hok record]; subst; [done |].
    exists record. split; [done |].
    rewrite get_api_hero_background_run. do 2 f_equal.
    unfold stored. simpl. by rewrite decide_False, lookup_insert_eq.
  - destruct (gallery_route_cases env cge rnd req w) as (o & w1 & Hrun' & Hcases).
    rewrite Hrun in Hrun'. injection Hrun' as <- <-.
    destruct Hcases as [(e & He & _) | [[_ Hc] | (sf & w1 & Heff & Hh)]]; try done.
    inversion Hh as [o' Hc' | | props l description Hg Himg Hlen Hok entry]; subst;
      [done |].
    exists entry. eexists. exists l. split; [done |].
    rewrite get_api_gallery_run. split; [reflexivity |].
    unfold stored. simpl. rewrite decide_False, lookup_insert_eq by done.
    apply entries_pushed.
Qed.

(** X9. The public routes only read. Each answers 200 in every state of the
    disk, with the document when its file holds JSON and with the default
    when the file is missing, unreadable or not JSON, and the world is as
    before: their 500 branches cannot be reached. *)
Theorem get_routes_only_read (w : world) :
  let served path default :=
    if decide (path ∈ faulty w) then default
    else match files w !! path with
         | Some (Document v) => v
         | _ => default
         end in
  get_api_status w
  = (Ok (Sent 200
           (served DATA_FILE
              (JObj [("status", JBool false); ("notice", JStr "");
                     ("lastUpdated", JStr (Date.toISOString (clock w)))]))), w)
  ∧ get_api_gallery w
    = (Ok (Sent 200 (served GALLERY_FILE (JObj [("images", JArr [])]))), w)
  ∧ get_api_hero_background w
    = (Ok (Sent 200
             (served HERO_BG_FILE (JObj [("filename", JNull); ("uploadedAt", JNull)]))), w).
Proof.
  intros served.
  rewrite get_api_status_run, get_api_gallery_run, get_api_hero_background_run.
  done.
Qed.

Lemma get_serves_what_post_answered_witness :
  let run :=
    admin_upload_gallery None (fun _ _ => Some false) 42 sale_request
      (World ∅ ∅ 1000000000000) in
  ∃ entry g earlier,
    get_api_gallery (later 5 (snd run)) = (Ok (Sent 200 g), later 5 (snd run))
    ∧ entries g = Some (earlier ++ [entry]).
Proof.
  intros run.
  destruct (proj2 (proj2 (get_serves_what_post_answered None (fun _ _ => Some false) 42
              sale_request (World ∅ ∅ 1000000000000) (snd run)
              (JObj [("success", JBool true);
                     ("image",
                      JObj [("filename", JStr "gallery-1000000000000-42.jpg");
                            ("originalName", JStr "a.jpg"); ("description", JStr "sale");
                            ("uploadedAt", JStr "2001-09-09T01:46:40.000Z")])]) 5)))
    as (entry & g & earlier & _ & Hget & Hentries).
  - vm_compute. reflexivity.
  - exists entry, g, earlier. split; [exact Hget | exact Hentries].
Defined.

(** ** First-run initialization *)

Lemma documents_distinct :
  DATA_FILE ≠ GALLERY_FILE ∧ DATA_FILE ≠ HERO_BG_FILE ∧ GALLERY_FILE ≠ HERO_BG_FILE.
Proof. done. Qed.

Ltac settle_io :=
  repeat first
    [ match goal with
      | H : ?p ∈ faulty ?w |- context [decide (?p ∈ faulty ?w)] =>
          rewrite (decide_True (P := p ∈ faulty w)) by exact H
      | H : ?p ∉ faulty ?w |- context [decide (?p ∈ faulty ?w)] =>
          rewrite (decide_False (P := p ∈ faulty w)) by exact H
      | H : ?m !! ?p = _ |- context [?m !! ?p] => rewrite H
      end
    | rewrite lookup_insert_ne by done
    | rewrite with_files_same
    | progress simpl ].

Lemma initializeDataFiles_run w :
  initializeDataFiles w = (Ok tt, with_files (initialized_disk w) w).
Proof.
  destruct documents_distinct as (Hsg & Hsh & Hgh).
  unfold initializeDataFiles, initialized_disk, fs_access, Fs.writeFile, created.
  simpl.
  destruct (decide (DATA_FILE ∈ faulty w)); settle_io; [done |].
  destruct (files w !! DATA_FILE) eqn:Hs; settle_io;
    (destruct (decide (GALLERY_FILE ∈ faulty w)); settle_io; [done |]);
    (destruct (files w !! GALLERY_FILE) eqn:Hg; settle_io);
    (destruct (decide (HERO_BG_FILE ∈ faulty w)); settle_io; [done |]);
    (destruct (files w !! HERO_BG_FILE) eqn:Hh; settle_io); done.
Qed.

Lemma created_lookup path v disk p :
  created path v disk !! p
  = match disk !! p with
    | Some c => Some c
    | None => if decide (p = path) then Some (Document v) else None
    end.
Proof.
  unfold created. destruct (decide (p = path)) as [-> | Hne].
  - destruct (disk !! path) eqn:E; [by rewrite E | by rewrite lookup_insert_eq].
  - destruct (disk !! path); [by destruct (disk !! p) |].
    rewrite lookup_insert_ne by done. by destruct (disk !! p).
Qed.

Lemma created_again path v v' disk :
  created path v (created path v' disk) = created path v' disk.
Proof.
  unfold created at 1. rewrite created_lookup, decide_True by done.
  by destruct (disk !! path).
Qed.

Lemma created_present path v disk c :
  disk !! path = Some c → created path v disk = disk.
Proof. intros E. unfold created. by rewrite E. Qed.

(** X10. On a disk without I/O faults on the three documents,
    [initializeDataFiles] leaves every file that was there as it was, corrupt
    ones included, and creates each missing document with its default: the
    status closed with an empty notice and stamped with the current time, the
    gallery empty, the hero without a file. *)
Theorem initialization_creates_missing_documents (w : world) :
  DATA_FILE ∉ faulty w → GALLERY_FILE ∉ faulty w → HERO_BG_FILE ∉ faulty w →
  ∃ w',
    initializeDataFiles w = (Ok tt, w')
    ∧ faulty w' = faulty w
    ∧ clock w' = clock w
    ∧ files w'
      = files w
        ∪ <[DATA_FILE :=
              Document (JObj [("status", JBool false); ("notice", JStr "");
                              ("lastUpdated", JStr (Date.toISOString (clock w)))])]>
            (<[GALLERY_FILE := Document (JObj [("images", JArr [])])]>
               {[ HERO_BG_FILE
                  := Document (JObj [("filename", JNull); ("uploadedAt", JNull)]) ]}).
Proof.
  intros Hs Hg Hh. destruct documents_distinct as (Hsg & Hsh & Hgh).
  eexists. split; [apply initializeDataFiles_run |].
  split; [done |]. split; [done |]. simpl.
  unfold initialized_disk. rewrite !decide_False by done.
  apply map_eq. intros p.
  rewrite !created_lookup, lookup_union.
  destruct (files w !! p) as [c|] eqn:E; simpl.
  { by rewrite union_Some_l. }
  rewrite (left_id None _).
  destruct (decide (p = DATA_FILE)) as [-> | ?]; [by rewrite lookup_insert_eq |].
  rewrite lookup_insert_ne by done.
  destruct (decide (p = GALLERY_FILE)) as [-> | ?]; [by rewrite lookup_insert_eq |].
  rewrite lookup_insert_ne by done.
  destruct (decide (p = HERO_BG_FILE)) as [-> | ?]; [by rewrite lookup_singleton_eq |].
  by rewrite lookup_singleton_ne.
Qed.

Lemma initialization_creates_missing_documents_witness :
  ∃ w',
    initializeDataFiles (World {[ GALLERY_FILE := Opaque "{oops" ]} ∅ 0) = (Ok tt, w')
    ∧ files w' !! GALLERY_FILE = Some (Opaque "{oops")
    ∧ files w' !! HERO_BG_FILE
      = Some (Document (JObj [("filename", JNull); ("uploadedAt", JNull)])).
Proof.
  destruct (initialization_creates_missing_documents
              (World {[ GALLERY_FILE := Opaque "{oops" ]} ∅ 0))
    as (w' & Hrun & _ & _ & Hfiles); try apply not_elem_of_empty.
  exists w'. split; [exact Hrun |]. rewrite Hfiles. split; reflexivity.
Defined.

Lemma initialized_disk_lookup w p :
  initialized_disk w !! p = files w !! p
  ∨ (files w !! p = None
     ∧ (p ∉ faulty w)
     ∧ ((p = DATA_FILE
         ∧ initialized_disk w !! p = Some (Document (default_status (clock w))))
        ∨ (p = GALLERY_FILE
           ∧ initialized_disk w !! p = Some (Document default_gallery))
        ∨ (p = HERO_BG_FILE
           ∧ initialized_disk w !! p = Some (Document default_hero)))).
Proof.
  unfold initialized_disk.
  destruct (decide (DATA_FILE ∈ faulty w)) as [|Hs]; [by left |].
  destruct (decide (GALLERY_FILE ∈ faulty w)) as [|Hg];
    [| destruct (decide (HERO_BG_FILE ∈ faulty w)) as [|Hh]];
    rewrite !created_lookup;
    (destruct (files w !! p) eqn:E; [by left |]);
    repeat (destruct (decide (p = _)) as [-> | ?];
            [right; split; [done |]; split; [done |]; eauto |]);
    by left.
Qed.

(** X11. Whatever the faults, [initializeDataFiles] does not throw, never
    replaces or removes a file that is there, and touches no path other than
    the three documents. What the gallery and hero readers return is the same
    before and after it. *)
Theorem initialization_never_overwrites (w : world) :
  ∃ w',
    initializeDataFiles w = (Ok tt, w')
    ∧ (∀ path c, files w !! path = Some c → files w' !! path = Some c)
    ∧ (∀ path, path ≠ DATA_FILE → path ≠ GALLERY_FILE → path ≠ HERO_BG_FILE →
         files w' !! path = files w !! path)
    ∧ fst (readGallery w') = fst (readGallery w)
    ∧ fst (readHeroBackground w') = fst (readHeroBackground w).
Proof.
  eexists. split; [apply initializeDataFiles_run |].
  assert (Hlookup := initialized_disk_lookup w).
  split; [| split; [| split]].
  - intros path c E. simpl.
    destruct (Hlookup path) as [-> | (Hnone & _)]; [done | congruence].
  - intros path H1 H2 H3. simpl.
    destruct (Hlookup path) as [-> | (_ & _ & [[? _] | [[? _] | [? _]]])]; done.
  - rewrite !readGallery_run. simpl. f_equal. unfold stored. simpl.
    destruct (decide (GALLERY_FILE ∈ faulty w)); [done |].
    destruct (Hlookup GALLERY_FILE)
      as [-> | (-> & _ & [[? _] | [[_ ->] | [? _]]])]; done.
  - rewrite !readHeroBackground_run. simpl. f_equal. unfold stored. simpl.
    destruct (decide (HERO_BG_FILE ∈ faulty w)); [done |].
    destruct (Hlookup HERO_BG_FILE)
      as [-> | (-> & _ & [[? _] | [[? _] | [_ ->]]])]; done.
Qed.

(** X12. Initialization stops at the first document it cannot handle. When
    [status.json] has an I/O fault nothing at all is created, even if the
    gallery and hero documents are missing and could be written; when
    [gallery.json] has one, the hero document is left as it was. *)
Theorem initialization_stops_at_first_fault (w : world) :
  (DATA_FILE ∈ faulty w → initializeDataFiles w = (Ok tt, w))
  ∧ (GALLERY_FILE ∈ faulty w →
     ∃ w', initializeDataFiles w = (Ok tt, w')
           ∧ files w' !! GALLERY_FILE = files w !! GALLERY_FILE
           ∧ files w' !! HERO_BG_FILE = files w !! HERO_BG_FILE).
Proof.
  destruct documents_distinct as (Hsg & Hsh & Hgh).
  rewrite initializeDataFiles_run. unfold initialized_disk. split.
  - intros Hs. by rewrite decide_True, with_files_same.
  - intros Hg. eexists. split; [reflexivity |]. simpl.
    destruct (decide (DATA_FILE ∈ faulty w)); [done |].
    rewrite decide_True by done. rewrite !created_lookup.
    rewrite !decide_False by done.
    split; by destruct (files w !! _).
Qed.

Lemma initialization_stops_at_first_fault_witness :
  initializeDataFiles (World ∅ {[ DATA_FILE ]} 0) = (Ok tt, World ∅ {[ DATA_FILE ]} 0).
Proof.
  assert (H : DATA_FILE ∈ faulty (World ∅ {[ DATA_FILE ]} 0))
    by (simpl; by apply elem_of_singleton_2).
  exact (proj1 (initialization_stops_at_first_fault (World ∅ {[ DATA_FILE ]} 0)) H).
Defined.

Lemma created_keeps path v disk p :
  is_Some (disk !! p) → is_Some (created path v disk !! p).
Proof. intros [c E]. rewrite created_lookup, E. eauto. Qed.

Lemma created_there path v disk : is_Some (created path v disk !! path).
Proof.
  rewrite created_lookup, decide_True by done. destruct (disk !! path); eauto.
Qed.

Lemma created_no_change path v disk :
  is_Some (disk !! path) → created path v disk = disk.
Proof. intros [c E]. by apply (created_present _ _ _ c). Qed.

(** X13. Initialization is idempotent: run again on the world it has left, at
    any later time, it changes nothing. In particular the time stamp of a
    status document it created is not refreshed. *)
Theorem initialization_idempotent (w : world) (d : N) :
  ∃ w',
    initializeDataFiles w = (Ok tt, w')
    ∧ initializeDataFiles (later d w') = (Ok tt, later d w').
Proof.
  eexists. split; [apply initializeDataFiles_run |].
  rewrite initializeDataFiles_run. f_equal.
  set (w1 := with_files (initialized_disk w) w).
  assert (Hdisk : initialized_disk (later d w1) = initialized_disk w);
    [| unfold later at 2 3; simpl; unfold with_files; simpl; by rewrite Hdisk].
  unfold initialized_disk at 1. simpl.
  unfold initialized_disk.
  destruct (decide (DATA_FILE ∈ faulty w)); [done |].
  destruct (decide (GALLERY_FILE ∈ faulty w)).
  { apply created_no_change, created_there. }
  destruct (decide (HERO_BG_FILE ∈ faulty w)).
  { rewrite (created_no_change DATA_FILE); [| apply created_keeps, created_there].
    apply created_no_change, created_there. }
  rewrite (created_no_change DATA_FILE);
    [| apply created_keeps, created_keeps, created_there].
  rewrite (created_no_change GALLERY_FILE); [| apply created_keeps, created_there].
  apply created_no_change, created_there.
Qed.

(** ** File names *)

Lemma component_no_slash cs c : c ∈ Path.component cs → c ≠ Path.slash.
Proof.
  induction cs as [|c' cs IH]; cbn [Path.component]; [by intros ?%elem_of_nil |].
  destruct (Ascii.eqb_spec c' Path.slash) as [-> | Hne]; [by intros ?%elem_of_nil |].
  intros [-> | Hin]%elem_of_cons; auto.
Qed.

Lemma split_dot_parts cs ext stem :
  Path.split_dot cs = Some (ext, stem) →
  cs = ext ++ Path.dot :: stem ∧ Path.dot ∉ ext.
Proof.
  revert ext. induction cs as [|c cs IH]; intros ext; cbn [Path.split_dot]; [done |].
  destruct (Ascii.eqb_spec c Path.dot) as [-> | Hne].
  - intros [= <- <-]. split; [done | apply not_elem_of_nil].
  - destruct (Path.split_dot cs) as [[ext' stem']|]; [| done].
    intros [= <- <-]. destruct (IH ext' eq_refl) as [-> Hno].
    split; [done |]. intros [E | Hin]%elem_of_cons; [by destruct Hne | done].
Qed.

Lemma extname_rev_shape r :
  Path.extname_rev r = []
  ∨ ∃ ext, Path.extname_rev r = ext ++ [Path.dot]
           ∧ (Path.dot ∉ ext) ∧ (Path.slash ∉ ext).
Proof.
  unfold Path.extname_rev.
  destruct (Path.split_dot (Path.component (Path.drop_slashes r)))
    as [[ext stem]|] eqn:E; [| by left].
  apply split_dot_parts in E as [Hcomp Hno].
  destruct stem as [|c stem]; [by left |].
  destruct (_ && _); [by left |].
  right. exists ext. split; [done |]. split; [done |].
  intros Hin. apply (component_no_slash (Path.drop_slashes r) Path.slash); [| done].
  rewrite Hcomp. apply elem_of_app. by left.
Qed.

Lemma each_char_of_list P cs :
  each_char P (string_of_list_ascii cs) ↔ Forall P cs.
Proof.
  induction cs as [|c cs IH]; simpl.
  - split; [constructor | done].
  - rewrite Forall_cons. by rewrite IH.
Qed.

Lemma each_char_app P s t : each_char P (s +:+ t) ↔ each_char P s ∧ each_char P t.
Proof.
  induction s as [|c s IH]; [simpl; tauto |].
  rewrite append_cons. simpl. rewrite IH. tauto.
Qed.

Lemma each_char_impl (P Q : ascii → Prop) s :
  (∀ c, P c → Q c) → each_char P s → each_char Q s.
Proof. intros H. induction s; simpl; [done |]. intros [? ?]. auto. Qed.

(** The extension is empty, or a dot followed by characters that are neither
    dots nor slashes. *)
Lemma extname_shape p :
  Path.extname p = ""
  ∨ ∃ e, Path.extname p = String Path.dot e
         ∧ each_char (fun c => c ≠ Path.dot ∧ c ≠ Path.slash) e.
Proof.
  unfold Path.extname.
  destruct (extname_rev_shape (rev (list_ascii_of_string p))) as [-> | (ext & -> & Hd & Hs)];
    [by left |].
  right. exists (string_of_list_ascii (rev ext)).
  rewrite rev_app_distr. simpl. split; [done |].
  apply each_char_of_list, Forall_forall. intros c Hin%list_elem_of_In.
  apply in_rev, list_elem_of_In in Hin. split; intros ->; done.
Qed.

Lemma digit_char x : digit (pretty_N_char x).
Proof. unfold pretty_N_char, digit. repeat case_match; simpl; eauto. Qed.

Lemma pretty_N_go_digits x s : each_char digit s → each_char digit (pretty_N_go x s).
Proof.
  revert s. induction (N.lt_wf_0 x) as [x _ IH]; intros s Hs.
  assert (x = 0 ∨ 0 < x)%N as [-> | Hpos] by lia; [by rewrite pretty_N_go_0 |].
  rewrite pretty_N_go_step by done. apply IH.
  - by apply N.div_lt.
  - simpl. split; [apply digit_char | done].
Qed.

Lemma pretty_Z_digits (t : Z) : 0 ≤ t → each_char digit (pretty t).
Proof.
  intros Ht. destruct t as [|p|p]; [simpl; split; [by eexists | done] | | lia].
  change (pretty (Z.pos p)) with (pretty (N.pos p)).
  unfold pretty, pretty_N. rewrite decide_False by done.
  by apply pretty_N_go_digits.
Qed.

Lemma digit_not_slash c : digit c → c ≠ Path.slash.
Proof. intros [n Hn] ->. discriminate Hn. Qed.

Lemma pretty_Z_no_slash (t : Z) : each_char (fun c => c ≠ Path.slash) (pretty t).
Proof.
  destruct t as [|p|p].
  - simpl. split; [done | done].
  - apply (each_char_impl digit); [apply digit_not_slash |].
    by apply pretty_Z_digits.
  - change (pretty (Z.neg p)) with ("-" +:+ pretty (Z.pos p)).
    apply each_char_app. split; [simpl; split; done |].
    apply (each_char_impl digit); [apply digit_not_slash |].
    by apply pretty_Z_digits.
Qed.

Lemma extname_no_slash p : each_char (fun c => c ≠ Path.slash) (Path.extname p).
Proof.
  destruct (extname_shape p) as [-> | (e & -> & He)]; [done |].
  simpl. split; [done |].
  apply (each_char_impl (fun c => c ≠ Path.dot ∧ c ≠ Path.slash)); [tauto | done].
Qed.

(** X14. No file name that the two disk storages produce contains a [/]:
    whatever the original name of the upload, the clock and the random
    number, the file is written directly inside [uploads/gallery] or
    [uploads/hero]. *)
Theorem upload_names_have_no_separator (rnd : Z) (f : upload) (w : world) :
  ∃ gallery_file hero_file,
    filename (galleryStorage rnd) f w = (Ok gallery_file, w)
    ∧ filename heroStorage f w = (Ok hero_file, w)
    ∧ each_char (fun c => c ≠ "/"%char) gallery_file
    ∧ each_char (fun c => c ≠ "/"%char) hero_file.
Proof.
  eexists _, _. split; [reflexivity |]. split; [reflexivity |].
  split.
  - apply each_char_app. split; [simpl; repeat split; done |].
    apply each_char_app. split; [| apply extname_no_slash].
    apply each_char_app. split; [apply pretty_Z_no_slash |].
    apply each_char_app. split; [simpl; split; done | apply pretty_Z_no_slash].
  - apply each_char_app. split; [simpl; repeat split; done | apply extname_no_slash].
Qed.

Lemma append_assoc s t u : (s +:+ t) +:+ u = s +:+ (t +:+ u).
Proof. induction s as [|c s IH]; [done |]. rewrite !append_cons. by rewrite IH. Qed.

(** A run of digits ends where the first other character stands. *)
Lemma digits_then_rest a a' b b' :
  each_char digit a → each_char digit a' →
  (b = "" ∨ ∃ c r, b = String c r ∧ ¬ digit c) →
  (b' = "" ∨ ∃ c r, b' = String c r ∧ ¬ digit c) →
  a +:+ b = a' +:+ b' → a = a' ∧ b = b'.
Proof.
  revert a'. induction a as [|c a IH]; intros a' Ha Ha' Hb Hb' E.
  - destruct a' as [|c' a']; [done |].
    simpl in E. rewrite append_cons in E. destruct Ha' as [Hc' _].
    destruct Hb as [-> | (c & r & -> & Hc)]; [done |].
    injection E as -> _. done.
  - destruct a' as [|c' a'].
    + simpl in E. rewrite append_cons in E. destruct Ha as [Hc _].
      destruct Hb' as [-> | (c0 & r & -> & Hc0)]; [done |].
      injection E as -> _. done.
    + rewrite !append_cons in E. injection E as -> E.
      destruct Ha as [_ Ha], Ha' as [_ Ha'].
      destruct (IH a' Ha Ha' Hb Hb' E) as [-> ->]. done.
Qed.

(** X15. Gallery file names tell uploads apart: with a clock past the epoch
    and the random numbers [Math.round] yields, two uploads get the same name
    only if they happen in the same millisecond, draw the same random number
    and have the same extension. *)
Theorem gallery_names_collide_only_on_same_draw (rnd rnd' : Z) (f f' : upload)
    (w w' : world) (name : string) :
  0 ≤ clock w → 0 ≤ clock w' → 0 ≤ rnd → 0 ≤ rnd' →
  filename (galleryStorage rnd) f w = (Ok name, w) →
  filename (galleryStorage rnd') f' w' = (Ok name, w') →
  clock w = clock w' ∧ rnd = rnd'
  ∧ Path.extname (originalname f) = Path.extname (originalname f').
Proof.
  intros Ht Ht' Hr Hr' Hname Hname'.
  simpl in Hname, Hname'. injection Hname as Hname. injection Hname' as Hname'.
  rewrite <- Hname' in Hname. clear Hname'.
  assert (Hnil : ∀ s, "" +:+ s = s) by done.
  repeat rewrite ?append_cons, ?Hnil in Hname.
  injection Hname as Hname.
  rewrite ?append_assoc, ?append_cons, ?Hnil in Hname.
  assert (Hdash : ¬ digit "-"%char) by (intros [n Hn]; discriminate Hn).
  assert (Hdot : ¬ digit Path.dot) by (intros [n Hn]; discriminate Hn).
  apply digits_then_rest in Hname as [Hclock Hrest];
    [| by apply pretty_Z_digits | by apply pretty_Z_digits
     | right; by eexists _, _ | right; by eexists _, _].
  injection Hrest as Hrest.
  assert (Hext : ∀ p, Path.extname p = "" ∨ ∃ c r, Path.extname p = String c r ∧ ¬ digit c).
  { intros p. destruct (extname_shape p) as [-> | (e & -> & _)]; [by left |].
    right. eauto. }
  apply digits_then_rest in Hrest as [Hrnd Hsame];
    [| by apply pretty_Z_digits | by apply pretty_Z_digits | apply Hext | apply Hext].
  apply (inj pretty) in Hclock. apply (inj pretty) in Hrnd. done.
Qed.

Lemma gallery_names_collide_only_on_same_draw_witness :
  (5 : Z) = 5 ∧ (7 : Z) = 7 ∧ Path.extname "a.jpg" = Path.extname "b.jpg".
Proof.
  apply (gallery_names_collide_only_on_same_draw 7 7
           (Upload "a.jpg" "image/jpeg" "A") (Upload "b.jpg" "image/jpeg" "B")
           (World ∅ ∅ 5) (World ∅ ∅ 5) "gallery-5-7.jpg");
    try (simpl; lia); reflexivity.
Defined.

(** * Further properties of the mobile client *)

(** ** Scrolling *)

Lemma clearTimeout_only id : Page.clearTimeout id [id] = [].
Proof.
  unfold Page.clearTimeout. rewrite filter_cons, decide_False; [done |].
  by intros H.
Qed.

Lemma scroll_ok_step s e : scroll_ok s → scroll_ok (Page.step s e).
Proof.
  intros [Hframes Htimers]. destruct e as [| id |]; simpl.
  - unfold Page.on_scroll. split; [done |]. simpl. right.
    exists (Page.next_handle s). split; [| done].
    destruct Htimers as [-> | (id & -> & ->)].
    + by destruct (Page.scrollTimeout s).
    + by rewrite clearTimeout_only.
  - destruct (decide (id ∈ Page.timeouts s)) as [Hin | _]; [| done].
    assert (Hcleared : Page.clearTimeout id (Page.timeouts s) = []).
    { destruct Htimers as [E | (id' & E & _)]; rewrite E in *.
      - by apply elem_of_nil in Hin.
      - apply list_elem_of_singleton in Hin as ->. apply clearTimeout_only. }
    unfold Page.updateOnScroll. simpl.
    destruct (Page.ticking s) eqn:Ht; simpl; rewrite Hcleared;
      (split; [| by left]).
    + done.
    + by rewrite Hframes.
  - destruct (Page.frames s) as [|n] eqn:Hn.
    + split; [by rewrite Hn | done].
    + split; [| done]. simpl.
      destruct (Page.ticking s); [| done]. by injection Hframes.
Qed.

Lemma scroll_ok_run events s : scroll_ok s → scroll_ok (Page.run events s).
Proof.
  revert s. induction events as [|e events IH]; intros s Hs; [done |].
  apply IH. by apply scroll_ok_step.
Qed.

Lemma scroll_burst n s :
  scroll_ok s →
  let s' := Page.run (replicate (S n) Page.scroll) s in
  Page.ticking s' = Page.ticking s
  ∧ Page.frames s' = Page.frames s
  ∧ ∃ id, Page.timeouts s' = [id].
Proof.
  revert s. induction n as [|n IH]; intros s Hs.
  - simpl. split; [done |]. split; [done |].
    destruct (scroll_ok_step s Page.scroll Hs) as [_ [E | (id & E & _)]]; [| eauto].
    simpl in E. unfold Page.on_scroll in E. simpl in E. by destruct (app_cons_not_nil _ _ _ (eq_sym E)).
  - change (Page.run (replicate (S (S n)) Page.scroll) s)
      with (Page.run (replicate (S n) Page.scroll) (Page.on_scroll s)).
    destruct (IH (Page.on_scroll s) (scroll_ok_step s Page.scroll Hs)) as (Ht & Hf & Hid).
    split; [by rewrite Ht |]. split; [by rewrite Hf |]. done.
Qed.

(** X16. The scroll code never piles work up. After any sequence of scroll
    events, expired timers and animation frames, at most one
    [updateOnScroll] timer is pending, at most one animation callback waits,
    and [ticking] is set exactly when one waits. And the listener debounces:
    a burst of scroll events with no timer expiring in between leaves one
    timer pending and runs no update at all. *)
Theorem scroll_work_never_piles_up (events : list Page.event) (n : nat) :
  let s := Page.run events Page.loaded in
  (length (Page.timeouts s) ≤ 1)%nat
  ∧ (Page.frames s ≤ 1)%nat
  ∧ (Page.ticking s = true ↔ Page.frames s = 1%nat)
  ∧ let s' := Page.run (replicate (S n) Page.scroll) s in
    length (Page.timeouts s') = 1%nat
    ∧ Page.frames s' = Page.frames s
    ∧ Page.ticking s' = Page.ticking s.
Proof.
  intros s.
  assert (Hs : scroll_ok s).
  { apply scroll_ok_run. split; [done | by left]. }
  destruct Hs as [Hframes Htimers].
  split; [destruct Htimers as [-> | (id & -> & _)]; simpl; lia |].
  split; [rewrite Hframes; destruct (Page.ticking s); lia |].
  split; [rewrite Hframes; destruct (Page.ticking s); split; done |].
  pose proof (scroll_burst n s (conj Hframes Htimers)) as Hburst.
  cbv zeta in Hburst. destruct Hburst as (Ht & Hf & id & Hid).
  cbv zeta. by rewrite Hid.
Qed.

(** ** Fetching *)

Lemma elem_of_delete {A} (x : A) i (l : list A) : x ∈ delete i l → x ∈ l.
Proof. intros H. eapply elem_of_sublist; [exact H | apply sublist_delete]. Qed.

Lemma occur_sends slow mobile scroll net o :
  ∃ sent,
    Page.requests (Page.occur slow mobile scroll net o) = Page.requests net ++ sent
    ∧ (slow = true → Page.API_GALLERY ∉ sent)
    ∧ (mobile = true → Page.API_HERO_BG ∉ sent).
Proof.
  assert (Hnone : ∃ sent,
             Page.requests net = Page.requests net ++ sent
             ∧ (slow = true → Page.API_GALLERY ∉ sent)
             ∧ (mobile = true → Page.API_HERO_BG ∉ sent)).
  { exists []. rewrite app_nil_r.
    split; [done |]. split; intros _; apply not_elem_of_nil. }
  assert (Hone : ∀ url,
             (slow = true → url ≠ Page.API_GALLERY) →
             (mobile = true → url ≠ Page.API_HERO_BG) →
             ∃ sent,
               Page.requests net ++ [url] = Page.requests net ++ sent
               ∧ (slow = true → Page.API_GALLERY ∉ sent)
               ∧ (mobile = true → Page.API_HERO_BG ∉ sent)).
  { intros url Hslow Hmobile. exists [url]. split; [done |].
    split; intros H E; apply list_elem_of_singleton in E.
    - by apply (Hslow H).
    - by apply (Hmobile H). }
  destruct o as [| i | i data]; simpl.
  - apply Hone; done.
  - unfold Page.fire.
    destruct (Page.timers net !! i) as [[[| |] ms] |]; [| | | done];
      unfold Page.fetchGallery, Page.fetchHeroBackground;
      [destruct slow | destruct mobile | destruct mobile]; simpl;
      try done; apply Hone; done.
  - unfold Page.reply.
    destruct (Page.in_flight net !! i) as [[| [|] | c] |]; simpl; try done.
    + unfold Page.status_step, Page.gallery_step, Page.show_gallery, Page.hero_step,
        Page.fetchGallery.
      destruct (_ && _); simpl; [done |].
      destruct slow; simpl; [by destruct mobile |].
      apply Hone; done.
    + unfold Page.show_gallery, Page.hero_step.
      destruct (Page.updateGalleryDisplay_throws _ _); [done |].
      by destruct mobile.
Qed.

(** X17. On a slow connection the mobile client never asks for the gallery,
    and on a mobile device it never asks for the hero background: whatever
    was pending, and however calls of [loadSettings], timers and replies
    follow one another, the requests sent from then on include no
    [/api/gallery], respectively no [/api/hero-background]. The functions
    that put the fetch off only put it off again. *)
Theorem deferred_fetches_never_happen (isSlowConnection isMobile galleryScroll : bool)
    (os : list Page.occurrence) (net : Page.network) :
  ∃ sent,
    Page.requests (Page.session isSlowConnection isMobile galleryScroll os net)
    = Page.requests net ++ sent
    ∧ (isSlowConnection = true → Page.API_GALLERY ∉ sent)
    ∧ (isMobile = true → Page.API_HERO_BG ∉ sent).
Proof.
  revert net. induction os as [|o os IH]; intros net.
  - exists []. rewrite app_nil_r.
    split; [done |]. split; intros _; apply not_elem_of_nil.
  - destruct (occur_sends isSlowConnection isMobile galleryScroll net o)
      as (sent & Hsent & Hslow & Hmobile).
    destruct (IH (Page.occur isSlowConnection isMobile galleryScroll net o))
      as (sent' & Hsent' & Hslow' & Hmobile').
    exists (sent ++ sent').
    change (Page.session isSlowConnection isMobile galleryScroll (o :: os) net)
      with (Page.session isSlowConnection isMobile galleryScroll os
              (Page.occur isSlowConnection isMobile galleryScroll net o)).
    rewrite Hsent', Hsent, app_assoc.
    split; [done |].
    split; intros H; apply not_elem_of_app; auto.
Qed.

Lemma only_loadSettings_occur slow mobile scroll net o :
  only_loadSettings mobile net →
  only_loadSettings mobile (Page.occur slow mobile scroll net o).
Proof.
  intros [Htimers Hflight].
  assert (Hhero : ∀ net', only_loadSettings mobile net' →
            only_loadSettings mobile (Page.hero_step mobile net')).
  { intros net' [Ht Hf]. unfold Page.hero_step.
    destruct mobile; [done |]. split; [| done]. simpl.
    intros f ms [Hin | E%list_elem_of_singleton]%elem_of_app; [eauto |].
    by injection E as -> ->. }
  destruct o as [| i | i data]; simpl.
  - split; [done |]. simpl.
    intros a [Hin | ->%list_elem_of_singleton]%elem_of_app; [eauto | done].
  - unfold Page.fire.
    destruct (Page.timers net !! i) as [[f ms] |] eqn:Hi; [| done].
    destruct (Htimers f ms) as (-> & -> & ->); [by eapply list_elem_of_lookup_2 |].
    simpl. split; simpl.
    + intros f ms Hin%elem_of_delete. eauto.
    + intros a [Hin | ->%list_elem_of_singleton]%elem_of_app; [eauto | done].
  - unfold Page.reply.
    destruct (Page.in_flight net !! i) as [a |] eqn:Hi; [| done].
    assert (Hrest : only_loadSettings mobile
              (Page.Network (Page.requests net) (delete i (Page.in_flight net))
                 (Page.timers net))).
    { split; [done |]. simpl. intros a' Hin%elem_of_delete. eauto. }
    destruct a as [| [|] | c]; simpl; try done.
    + unfold Page.status_step, Page.gallery_step.
      destruct (_ && _); [done |].
      destruct slow; [by apply Hhero |].
      simpl. destruct Hrest as [Ht Hf]. split; [done |]. simpl.
      intros a [Hin | ->%list_elem_of_singleton]%elem_of_app; [eauto | done].
    + unfold Page.show_gallery.
      destruct (Page.updateGalleryDisplay_throws _ _); [done | by apply Hhero].
Qed.

(** X18. From the load of the page on, the timers of [fetchGallery] and of
    [fetchHeroBackground] are never set: whatever the device and whatever
    happens, neither of the two retry closures is ever pending, and no fetch
    is in flight whose result would be dropped. The timer that [loadSettings]
    sets for the hero background is pending only with its 500 ms and only on
    a device that is not mobile, which is why [fetchHeroBackground] never
    finds a mobile device. *)
Theorem retry_timers_are_never_set (isSlowConnection isMobile galleryScroll : bool)
    (os : list Page.occurrence) :
  let net := Page.session isSlowConnection isMobile galleryScroll os Page.idle in
  (∀ ms, (Page.again_fetchGallery, ms) ∉ Page.timers net)
  ∧ (∀ ms, (Page.again_fetchHeroBackground, ms) ∉ Page.timers net)
  ∧ (∀ ms, (Page.load_hero, ms) ∈ Page.timers net → ms = 500 ∧ isMobile = false)
  ∧ (∀ a, a ∈ Page.in_flight net →
       a ≠ Page.in_fetchGallery Page.by_timer
       ∧ a ≠ Page.in_fetchHeroBackground Page.by_timer).
Proof.
  assert (Hrun : ∀ net, only_loadSettings isMobile net →
            only_loadSettings isMobile
              (Page.session isSlowConnection isMobile galleryScroll os net)).
  { induction os as [|o os IH]; intros net Hnet; [done |].
    apply IH. by apply only_loadSettings_occur. }
  destruct (Hrun Page.idle) as [Htimers Hflight].
  { split; simpl.
    - by intros f ms Hin%elem_of_nil.
    - by intros a Hin%elem_of_nil. }
  split; [| split; [| split]].
  - intros ms Hin. by destruct (Htimers _ _ Hin) as (? & _).
  - intros ms Hin. by destruct (Htimers _ _ Hin) as (? & _).
  - intros ms Hin. by destruct (Htimers _ _ Hin) as (_ & ? & ?).
  - exact Hflight.
Qed.

(** A fast desktop, step by step: the status, then the gallery, then after
    half a second the hero background. *)
Example fast_desktop_loads_all :
  let data := JObj [("status", JBool true); ("notice", JStr "")] in
  let images := JObj [("images", JArr [])] in
  Page.requests
    (Page.session false false true
       [Page.calls_loadSettings; Page.replies 0 data; Page.replies 0 images;
        Page.fires 0]
       Page.idle)
  = [Page.API_STATUS; Page.API_GALLERY; Page.API_HERO_BG].
Proof. reflexivity. Qed.

(** ** Visibility *)

(** X19. A tab that was hidden at [t1] and is shown again at [t2] reloads
    the settings exactly when more than 30 seconds lie between the two;
    hiding the tab never reloads, and both changes record their time. *)
Theorem shown_again_reloads_after_30s (t1 t1' t2 t2' : Z) (v : Page.visibility) :
  t1' ≠ 0 →
  let hid := Page.on_visibilitychange true t1 t1' v in
  let shown := Page.on_visibilitychange false t2 t2' hid in
  Page.reloads hid = Page.reloads v
  ∧ Page.lastVisibleTime hid = Some t1'
  ∧ Page.lastVisibleTime shown = Some t2'
  ∧ (30000 < t2 - t1' → Page.reloads shown = t2 :: Page.reloads v)
  ∧ (t2 - t1' ≤ 30000 → Page.reloads shown = Page.reloads v).
Proof.
  intros Ht1. simpl. split; [done |]. split; [done |]. split; [done |].
  destruct (Z.eqb_spec t1' 0) as [-> | _]; [done |]. simpl.
  destruct (Z.ltb_spec 30000 (t2 - t1')); split; intros; (done || lia).
Qed.

Lemma shown_again_reloads_after_30s_witness :
  Page.reloads
    (Page.on_visibilitychange false 41000 41001
       (Page.on_visibilitychange true 1000 1000 (Page.Visibility None [])))
  = [41000].
Proof.
  refine (proj1 (proj2 (proj2 (proj2
    (shown_again_reloads_after_30s 1000 1000 41000 41001 (Page.Visibility None []) _)))) _).
  - done.
  - reflexivity.
Defined.

Lemma watch_spaced changes : ∀ t v,
  0 < t →
  clock_runs t changes →
  spaced 30000 (Page.reloads v) →
  match Page.lastVisibleTime v with
  | None => Page.reloads v = []
  | Some last => 0 < last ∧ last ≤ t ∧ ∀ r, head (Page.reloads v) = Some r → r ≤ last
  end →
  spaced 30000 (Page.reloads (Page.watch changes v)).
Proof.
  induction changes as [|[[hidden now] now'] changes IH]; intros t v Ht Hclock Hsp Hlast;
    [done |].
  destruct Hclock as (Hnow & Hnow' & Hclock).
  change (Page.watch ((hidden, now, now') :: changes) v)
    with (Page.watch changes (Page.on_visibilitychange hidden now now' v)).
  apply (IH now'); [lia | done | |].
  - unfold Page.on_visibilitychange. simpl.
    destruct hidden; simpl; [done |].
    destruct (Page.lastVisibleTime v) as [last |]; simpl.
    + destruct Hlast as (Hpos & Hle & Hhead).
      destruct (Z.eqb_spec last 0) as [-> | _]; [lia |]. simpl.
      destruct (Z.ltb_spec 30000 (now - last)); [| done].
      destruct (Page.reloads v) as [|r rest]; [done |].
      split; [| done]. specialize (Hhead r eq_refl). lia.
    + by rewrite Hlast.
  - unfold Page.on_visibilitychange. simpl.
    split; [lia |]. split; [lia |].
    destruct (negb hidden && _); simpl.
    + intros r [= <-]. done.
    + destruct (Page.lastVisibleTime v) as [last |].
      * destruct Hlast as (Hpos & Hle & Hhead). intros r Hr.
        specialize (Hhead r Hr). lia.
      * by rewrite Hlast.
Qed.

(** X20. The visibility listener reloads at most once in 30 seconds: with a
    clock past the epoch that does not run backwards, each of its calls of
    [loadSettings] comes more than 30 seconds after the one before, however
    often and however fast the tab is hidden and shown. *)
Theorem visibility_reloads_are_spaced (t : Z) (changes : list (bool * Z * Z)) :
  0 < t →
  clock_runs t changes →
  spaced 30000 (Page.reloads (Page.watch changes (Page.Visibility None []))).
Proof.
  intros Ht Hclock. by apply (watch_spaced changes t).
Qed.

Lemma visibility_reloads_are_spaced_witness :
  spaced 30000
    (Page.reloads
       (Page.watch
          [(false, 1000, 1000); (true, 2000, 2000); (false, 3000, 3000);
           (true, 4000, 4000); (false, 40000, 40001)]
          (Page.Visibility None []))).
Proof.
  apply (visibility_reloads_are_spaced 1000); [lia |].
  simpl. lia.
Defined.

Example tab_shown_twice_log :
  Page.reloads
    (Page.watch
       [(false, 1000, 1000); (true, 2000, 2000); (false, 3000, 3000);
        (true, 4000, 4000); (false, 40000, 40001)]
       (Page.Visibility None []))
  = [40000; 1000].
Proof. reflexivity. Qed.

(** ** From the admin's update to the page *)

Lemma status_coercion (status : jsval) :
  JS.strict_eq_string status "true" || JS.strict_eq_true status = true
  ↔ status = Some (JBool true) ∨ status = Some (JStr "true").
Proof.
  destruct status as [[|[|]| |s| |]|]; simpl;
    try (split; [discriminate | intros [E | E]; discriminate E]).
  - split; [intros _; by left | done].
  - rewrite orb_false_r.
    destruct (String.eqb_spec s "true") as [->|Hne].
    + split; [intros _; by right | done].
    + split; [discriminate | intros [E | E]; [discriminate E | congruence]].
Qed.

Lemma update_then_get env props img w d :
  authorize env (JS.lookup "password" props) = true →
  DATA_FILE ∉ faulty w →
  let statusData :=
    JObj [("status",
           JBool (JS.strict_eq_string (JS.lookup "status" props) "true"
                  || JS.strict_eq_true (JS.lookup "status" props)));
          ("notice", JS.or_else (JS.lookup "notice" props) (JStr ""));
          ("lastUpdated", JStr (Date.toISOString (clock w)))] in
  ∃ w',
    admin_update_status env (Request (JObj props) img) w
    = (Ok (Sent 200 (JObj [("success", JBool true); ("data", statusData)])), w')
    ∧ get_api_status (later d w') = (Ok (Sent 200 statusData), later d w').
Proof.
  intros Hauth Hok statusData. eexists. split.
  - unfold admin_update_status, post_admin_update_status. simpl.
    rewrite Hauth. simpl. by rewrite writeStatus_run.
  - rewrite get_api_status_run. do 2 f_equal.
    unfold stored. simpl. by rewrite decide_False, lookup_insert_eq.
Qed.

Lemma or_else_again (v : jsval) (d : json) :
  JS.or_else (Some (JS.or_else v d)) d = JS.or_else v d.
Proof.
  destruct v as [x |]; cbn [JS.or_else].
  - destruct (JS.truthy (Some x)) eqn:Hx.
    + by rewrite Hx.
    + by destruct (JS.truthy (Some d)).
  - by destruct (JS.truthy (Some d)).
Qed.

Lemma loadSettings_status_served blank isOpen notice stamp gl page :
  JS.or_else (Some notice) (JStr "") = notice →
  Page.loadSettings_status blank
    (JObj [("status", JBool isOpen); ("notice", notice); ("lastUpdated", stamp)])
    gl page
  = let gl' := Page.Globals isOpen notice in
    (gl', fst (Page.updateStatusDisplay blank gl' page),
     snd (Page.updateStatusDisplay blank gl' page)).
Proof.
  intros Hkept. unfold Page.loadSettings_status.
  change (JS.truthy (Some (JObj _))) with true. cbv iota.
  change (Page.field _ "status") with (Some (JBool isOpen)).
  change (Page.field _ "notice") with (Some notice).
  rewrite Hkept.
  change (JS.truthy (Some (JBool isOpen))) with isOpen.
  cbv zeta. by destruct (Page.updateStatusDisplay _ _ _).
Qed.

Lemma updateStatusDisplay_line blank gl page :
  is_Some (Page.statusIndicator page) →
  is_Some (Page.statusText page) →
  let page' := fst (Page.updateStatusDisplay blank gl page) in
  Page.statusIndicator page'
  = Some (if Page.currentStatus gl then "status-indicator open"
          else "status-indicator closed")
  ∧ Page.statusText page'
    = Some (if Page.currentStatus gl then "CURRENTLY OPEN" else "CURRENTLY CLOSED").
Proof.
  intros [class Hclass] [line Hline]. unfold Page.updateStatusDisplay.
  rewrite Hclass, Hline.
  destruct (Page.currentStatus gl), (Page.customNotice gl) as [| [|] | n | s | l | o];
    simpl; try done.
  - by destruct (n =? 0).
  - by destruct (negb (s =? "")%string && negb (blank s)).
  - by destruct (n =? 0).
  - by destruct (negb (s =? "")%string && negb (blank s)).
Qed.

Lemma updateStatusDisplay_notice blank gl page s :
  Page.customNotice gl = JStr s →
  let '(page', threw) := Page.updateStatusDisplay blank gl page in
  threw = false
  ∧ (if negb (String.eqb s "") && negb (blank s)
     then Page.customNoticeDiv page' = (const false <$> Page.customNoticeDiv page)
          ∧ Page.customNoticeText page' = (const s <$> Page.customNoticeText page)
     else Page.customNoticeDiv page' = (const true <$> Page.customNoticeDiv page)
          ∧ Page.customNoticeText page' = Page.customNoticeText page).
Proof.
  intros Hs. unfold Page.updateStatusDisplay. rewrite Hs. simpl.
  destruct (negb (s =? "")%string && negb (blank s)); simpl; (split; [done |]);
    destruct (Page.statusIndicator page), (Page.statusText page),
      (Page.currentStatus gl), (Page.customNoticeDiv page),
      (Page.customNoticeText page); done.
Qed.


(** X21. What the admin sets is what the page shows. After an authorized
    update, the status the server then serves makes the page read CURRENTLY
    OPEN exactly when the submitted [status] was [true] or ['true'], and
    CURRENTLY CLOSED otherwise, whatever the notice. A notice that is a
    string is shown with its text unless it is empty or blank; then the
    notice box is hidden, as it is when no notice was submitted. *)
Theorem updated_status_reaches_the_page (env : option string)
    (props : list (string * json)) (img : option upload) (w : world) (d : N)
    (blank : string → bool) (gl : Page.globals) (page : Page.dom) :
  authorize env (JS.lookup "password" props) = true →
  DATA_FILE ∉ faulty w →
  is_Some (Page.statusIndicator page) →
  is_Some (Page.statusText page) →
  let status := JS.lookup "status" props in
  let notice := JS.lookup "notice" props in
  ∃ reply w' statusData gl' page' threw isOpen,
    admin_update_status env (Request (JObj props) img) w = (Ok (Sent 200 reply), w')
    ∧ get_api_status (later d w') = (Ok (Sent 200 statusData), later d w')
    ∧ Page.loadSettings_status blank statusData gl page = (gl', page', threw)
    ∧ (isOpen = true ↔ status = Some (JBool true) ∨ status = Some (JStr "true"))
    ∧ Page.statusText page'
      = Some (if isOpen then "CURRENTLY OPEN" else "CURRENTLY CLOSED")
    ∧ Page.statusIndicator page'
      = Some (if isOpen then "status-indicator open" else "status-indicator closed")
    ∧ (∀ s, notice = Some (JStr s) → s ≠ "" → blank s = false →
       threw = false
       ∧ Page.customNoticeDiv page' = (const false <$> Page.customNoticeDiv page)
       ∧ Page.customNoticeText page' = (const s <$> Page.customNoticeText page))
    ∧ (notice = None ∨ notice = Some (JStr "")
       ∨ (∃ s, notice = Some (JStr s) ∧ blank s = true) →
       threw = false
       ∧ Page.customNoticeDiv page' = (const true <$> Page.customNoticeDiv page)
       ∧ Page.customNoticeText page' = Page.customNoticeText page).
Proof.
  intros Hauth Hok Hclass Hline status notice.
  destruct (update_then_get env props img w d Hauth Hok) as (w' & Hpost & Hget).
  fold status notice in Hpost, Hget.
  set (isOpen := JS.strict_eq_string status "true" || JS.strict_eq_true status) in *.
  set (gl' := Page.Globals isOpen (JS.or_else notice (JStr ""))).
  eexists _, w', _, gl', _, _, isOpen.
  split; [exact Hpost |]. split; [exact Hget |].
  split; [apply loadSettings_status_served, or_else_again |].
  split; [apply status_coercion |].
  destruct (updateStatusDisplay_line blank gl' page Hclass Hline) as [Hi Ht].
  split; [exact Ht |]. split; [exact Hi |].
  clear Hi Ht. subst gl'. simpl.
  split.
  - intros s Hs Hne Hblank.
    pose proof (updateStatusDisplay_notice blank
                  (Page.Globals isOpen (JS.or_else notice (JStr ""))) page s) as Hshow.
    destruct (Page.updateStatusDisplay blank _ page) as [page' threw].
    destruct (String.eqb_spec s "") as [-> | _]; [done |].
    rewrite Hblank in Hshow. simpl in Hshow. simpl. apply Hshow.
    rewrite Hs. simpl. by destruct s.
  - intros Hhide.
    assert (Hs : ∃ s, JS.or_else notice (JStr "") = JStr s
                      ∧ negb (String.eqb s "") && negb (blank s) = false).
    { destruct Hhide as [-> | [-> | (s & -> & Hblank)]].
      - by exists "".
      - by exists "".
      - destruct (String.eqb_spec s "") as [-> | Hne].
        + by exists "".
        + exists s. split.
          * simpl. by destruct s.
          * rewrite Hblank. apply andb_false_r. }
    destruct Hs as (s & Hs & Hcond).
    pose proof (updateStatusDisplay_notice blank
                  (Page.Globals isOpen (JS.or_else notice (JStr ""))) page s Hs) as Hshow.
    destruct (Page.updateStatusDisplay blank _ page) as [page' threw].
    rewrite Hcond in Hshow. exact Hshow.
Qed.

Lemma updated_status_reaches_the_page_witness :
  ∃ reply w' statusData gl' page' threw,
    admin_update_status None
      (Request (JObj [("password", JStr "noblesrhyl1121"); ("status", JStr "true");
                      ("notice", JStr "Gates open at 7")]) None)
      (World ∅ ∅ 0)
    = (Ok (Sent 200 reply), w')
    ∧ get_api_status (later 5000 w') = (Ok (Sent 200 statusData), later 5000 w')
    ∧ Page.loadSettings_status (fun _ => false) statusData
        (Page.Globals false (JStr ""))
        (Page.Dom (Some "") (Some "") (Some true) (Some ""))
      = (gl', page', threw)
    ∧ Page.statusText page' = Some "CURRENTLY OPEN"
    ∧ Page.customNoticeDiv page' = Some false
    ∧ Page.customNoticeText page' = Some "Gates open at 7".
Proof.
  destruct (updated_status_reaches_the_page None
              [("password", JStr "noblesrhyl1121"); ("status", JStr "true");
               ("notice", JStr "Gates open at 7")]
              None (World ∅ ∅ 0) 5000 (fun _ => false)
              (Page.Globals false (JStr ""))
              (Page.Dom (Some "") (Some "") (Some true) (Some "")))
    as (reply & w' & statusData & gl' & page' & threw & isOpen
        & Hpost & Hget & Hload & Hiff & Hline & _ & Hshown & _).
  - reflexivity.
  - apply not_elem_of_empty.
  - by eexists.
  - by eexists.
  - exists reply, w', statusData, gl', page', threw.
    split; [exact Hpost |]. split; [exact Hget |]. split; [exact Hload |].
    destruct (Hshown "Gates open at 7") as (_ & Hdiv & Htext); [done | done | done |].
    rewrite (proj2 Hiff) in Hline by (right; reflexivity).
    done.
Defined.



(** * Time stamps *)

(** ** Time stamps tell times apart *)

Lemma yoe_range doe :
  0 ≤ doe < 146097 →
  let yoe := (doe - doe / 1460 + doe / 36524 - doe / 146096) / 365 in
  0 ≤ yoe ≤ 399 ∧ 0 ≤ doe - (365 * yoe + yoe / 4 - yoe / 100) ≤ 365.
Proof. intros H yoe. subst yoe. Z.div_mod_to_equations. lia. Qed.

Lemma civil_ranges z :
  let '(y, m, d) := Date.civil z in 1 ≤ m ≤ 12 ∧ 1 ≤ d ≤ 31.
Proof.
  unfold Date.civil. cbv zeta.
  set (era := (z + 719468) / 146097).
  set (doe := z + 719468 - era * 146097).
  assert (Hdoe : 0 ≤ doe < 146097) by (subst doe era; Z.div_mod_to_equations; lia).
  clearbody doe. clear era.
  pose proof (yoe_range doe Hdoe) as H. cbv zeta in H.
  set (yoe := (doe - doe / 1460 + doe / 36524 - doe / 146096) / 365) in *.
  clearbody yoe.
  set (doy := doe - (365 * yoe + yoe / 4 - yoe / 100)) in *.
  clearbody doy.
  destruct H as [_ Hdoy].
  set (mp := (5 * doy + 2) / 153).
  assert (0 ≤ mp ≤ 11) by (subst mp; Z.div_mod_to_equations; lia).
  destruct (Z.ltb_spec mp 10); split; try lia; subst mp; Z.div_mod_to_equations; lia.
Qed.

Lemma days_from_civil_civil z :
  let '(y, m, d) := Date.civil z in days_from_civil y m d = z.
Proof.
  unfold Date.civil, days_from_civil. cbv zeta.
  set (era := (z + 719468) / 146097).
  set (doe := z + 719468 - era * 146097).
  assert (Hdoe : 0 ≤ doe < 146097) by (subst doe era; Z.div_mod_to_equations; lia).
  assert (Hz : z = era * 146097 + doe - 719468) by (subst doe; lia).
  clearbody doe. clearbody era.
  pose proof (yoe_range doe Hdoe) as H. cbv zeta in H.
  set (yoe := (doe - doe / 1460 + doe / 36524 - doe / 146096) / 365) in *.
  set (doy := doe - (365 * yoe + yoe / 4 - yoe / 100)) in *.
  assert (Hdoe' : doe = 365 * yoe + yoe / 4 - yoe / 100 + doy) by (subst doy; lia).
  clearbody doy. clearbody yoe.
  destruct H as [Hyoe Hdoy].
  set (mp := (5 * doy + 2) / 153).
  assert (Hmp : 0 ≤ mp ≤ 11) by (subst mp; Z.div_mod_to_equations; lia).
  destruct (Z.ltb_spec mp 10).
  - destruct (Z.leb_spec (mp + 3) 2); [lia |].
    destruct (Z.ltb_spec 2 (mp + 3)); [| lia].
    replace (mp + 3 - 3) with mp by lia.
    replace ((yoe + era * 400) / 400) with era by (Z.div_mod_to_equations; lia).
    replace (yoe + era * 400 - era * 400) with yoe by lia.
    lia.
  - destruct (Z.leb_spec (mp - 9) 2); [| lia].
    destruct (Z.ltb_spec 2 (mp - 9)); [lia |].
    replace (mp - 9 + 9) with mp by lia.
    replace (yoe + era * 400 + 1 - 1) with (yoe + era * 400) by lia.
    replace ((yoe + era * 400) / 400) with era by (Z.div_mod_to_equations; lia).
    replace (yoe + era * 400 - era * 400) with yoe by lia.
    lia.
Qed.

Lemma civil_inj z z' : Date.civil z = Date.civil z' → z = z'.
Proof.
  intros E. pose proof (days_from_civil_civil z) as H.
  pose proof (days_from_civil_civil z') as H'.
  rewrite E in H. destruct (Date.civil z') as [[y m] d]. congruence.
Qed.

Lemma is_nat_pretty_N_char (x : N) :
  (x < 10)%N → Ascii.is_nat (pretty_N_char x) = Some (N.to_nat x).
Proof.
  intros Hx. rewrite <- (N2Nat.id x) at 1.
  assert (Hn : (N.to_nat x < 10)%nat) by lia.
  revert Hn. generalize (N.to_nat x). intros n Hn.
  do 10 (destruct n as [|n]; [reflexivity |]). lia.
Qed.

Lemma numeral_pretty_N_go (x : N) s :
  (fst (numeral (pretty_N_go x s)) = x * snd (numeral s) + fst (numeral s))%N.
Proof.
  revert s. induction (N.lt_wf_0 x) as [x _ IH]; intros s.
  assert (x = 0 ∨ 0 < x)%N as [-> | Hpos] by lia; [by rewrite pretty_N_go_0 |].
  rewrite pretty_N_go_step by done.
  rewrite IH by (by apply N.div_lt).
  cbn [numeral]. destruct (numeral s) as [v p]. cbn [fst snd].
  rewrite is_nat_pretty_N_char by (by apply N.mod_lt).
  change (default 0%nat (Some ?a)) with a. rewrite N2Nat.id.
  pose proof (N.div_mod x 10). lia.
Qed.

Lemma numeral_pretty (x : N) : fst (numeral (pretty x)) = x.
Proof.
  unfold pretty, pretty_N. destruct (decide (x = 0%N)) as [-> | Hx]; [done |].
  rewrite numeral_pretty_N_go. simpl. lia.
Qed.

Lemma numeral_zeros k s : fst (numeral (Date.zeros k +:+ s)) = fst (numeral s).
Proof.
  induction k as [|k IH]; [done |].
  change (Date.zeros (S k) +:+ s) with (String "0" (Date.zeros k +:+ s)).
  cbn [numeral]. destruct (numeral (Date.zeros k +:+ s)) as [v p].
  cbn [fst] in *. simpl. lia.
Qed.

Lemma pad_inj w n n' : 0 ≤ n → 0 ≤ n' → Date.pad w n = Date.pad w n' → n = n'.
Proof.
  intros Hn Hn' E. apply (f_equal (fun s => fst (numeral s))) in E.
  unfold Date.pad in E. rewrite !numeral_zeros, !numeral_pretty in E. lia.
Qed.

Lemma zeros_digits k : each_char digit (Date.zeros k).
Proof.
  induction k as [|k IH]; [done |].
  change (Date.zeros (S k)) with (String "0" (Date.zeros k)).
  split; [by eexists | done].
Qed.

Lemma pretty_N_digits (x : N) : each_char digit (pretty x).
Proof.
  unfold pretty, pretty_N. destruct (decide (x = 0%N)).
  - split; [by eexists | done].
  - by apply pretty_N_go_digits.
Qed.

Lemma pad_digits w n : each_char digit (Date.pad w n).
Proof.
  unfold Date.pad. apply each_char_app. split; [apply zeros_digits | apply pretty_N_digits].
Qed.

Lemma pretty_N_go_not_empty (x : N) s : s ≠ "" → pretty_N_go x s ≠ "".
Proof.
  revert s. induction (N.lt_wf_0 x) as [x _ IH]; intros s Hs.
  assert (x = 0 ∨ 0 < x)%N as [-> | Hpos] by lia; [by rewrite pretty_N_go_0 |].
  rewrite pretty_N_go_step by done. apply IH; [by apply N.div_lt | done].
Qed.

Lemma pad_head w n : ∃ c r, Date.pad w n = String c r ∧ digit c.
Proof.
  pose proof (pad_digits w n) as Hd.
  destruct (Date.pad w n) as [|c r] eqn:E.
  - exfalso. unfold Date.pad in E.
    destruct (Date.zeros _) as [|c z]; [| by rewrite append_cons in E].
    simpl in E. unfold pretty, pretty_N in E.
    destruct (decide (Z.to_N n = 0%N)) as [_ | Hx]; [done |].
    assert (0 < Z.to_N n)%N as Hpos by lia.
    rewrite pretty_N_go_step in E by done.
    by apply pretty_N_go_not_empty in E.
  - exists c, r. split; [done | apply Hd].
Qed.

(** A padded number ends where the separator stands. *)
Lemma pad_then_rest w n n' c r r' :
  0 ≤ n → 0 ≤ n' → ¬ digit c →
  Date.pad w n +:+ String c r = Date.pad w n' +:+ String c r' →
  n = n' ∧ r = r'.
Proof.
  intros Hn Hn' Hc E.
  apply digits_then_rest in E as [E1 E2];
    [| apply pad_digits | apply pad_digits | right; eauto | right; eauto].
  split; [by apply (pad_inj w) | by injection E2].
Qed.

Lemma year_then_rest y y' r r' :
  Date.year_string y +:+ String "-" r = Date.year_string y' +:+ String "-" r' →
  y = y' ∧ r = r'.
Proof.
  assert (Hdash : ¬ digit "-") by (intros [k Hk]; discriminate Hk).
  assert (Hplus : ¬ digit "+") by (intros [k Hk]; discriminate Hk).
  unfold Date.year_string.
  destruct (Z.leb_spec 0 y), (Z.leb_spec y 9999), (Z.leb_spec 0 y'), (Z.leb_spec y' 9999);
    cbn [andb]; try lia;
    repeat match goal with
      | |- context [if ?x <? 0 then _ else _] => destruct (Z.ltb_spec x 0); try lia
      end;
    rewrite ?append_cons; change ("" +:+ ?s) with s; intros E.
  all: try (by apply pad_then_rest in E; [| lia | lia | done]).
  all: try (injection E as E; apply pad_then_rest in E; [| lia | lia | done];
            destruct E; split; [lia | done]).
  all: exfalso.
  all: try (destruct (pad_head 4 y) as (c & s & Hp & Hc); rewrite Hp, append_cons in E;
            injection E as -> _; done).
  all: try (destruct (pad_head 4 y') as (c & s & Hp & Hc); rewrite Hp, append_cons in E;
            injection E as <- _; done).
  all: try discriminate E.
Qed.

Lemma time_of_day_inj r r' :
  0 ≤ r < Date.ms_per_day → 0 ≤ r' < Date.ms_per_day →
  r / 3600000 = r' / 3600000 →
  r / 60000 mod 60 = r' / 60000 mod 60 →
  r / 1000 mod 60 = r' / 1000 mod 60 →
  r mod 1000 = r' mod 1000 →
  r = r'.
Proof. unfold Date.ms_per_day. intros. Z.div_mod_to_equations. lia. Qed.

(** Two times with the same time stamp are the same time. *)
Lemma toISOString_inj t t' : Date.toISOString t = Date.toISOString t' → t = t'.
Proof.
  unfold Date.toISOString.
  pose proof (civil_ranges (t / Date.ms_per_day)) as Hc.
  pose proof (civil_ranges (t' / Date.ms_per_day)) as Hc'.
  destruct (Date.civil (t / Date.ms_per_day)) as [[y m] d] eqn:Ecivil.
  destruct (Date.civil (t' / Date.ms_per_day)) as [[y' m'] d'] eqn:Ecivil'.
  cbv zeta.
  assert (Hr : 0 ≤ t mod Date.ms_per_day < Date.ms_per_day)
    by (apply Z.mod_pos_bound; done).
  assert (Hr' : 0 ≤ t' mod Date.ms_per_day < Date.ms_per_day)
    by (apply Z.mod_pos_bound; done).
  set (r := t mod Date.ms_per_day) in *. set (r' := t' mod Date.ms_per_day) in *.
  assert (Hsep : ∀ c, c = "-"%char ∨ c = "T"%char ∨ c = ":"%char ∨ c = "."%char
                      ∨ c = "Z"%char → ¬ digit c).
  { intros c Hcs [k Hk]. destruct Hcs as [-> | [-> | [-> | [-> | ->]]]]; discriminate Hk. }
  assert (Hfield : ∀ x, 0 ≤ x → 0 ≤ x / 3600000 ∧ 0 ≤ x / 60000 mod 60
                        ∧ 0 ≤ x / 1000 mod 60 ∧ 0 ≤ x mod 1000).
  { intros x Hx. Z.div_mod_to_equations. lia. }
  destruct (Hfield r) as (? & ? & ? & ?); [lia |].
  destruct (Hfield r') as (? & ? & ? & ?); [lia |].
  rewrite ?append_cons. change ("" +:+ ?s) with s.
  intros E.
  apply year_then_rest in E as [-> E].
  apply pad_then_rest in E as [-> E]; [| lia | lia | apply Hsep; tauto].
  apply pad_then_rest in E as [-> E]; [| lia | lia | apply Hsep; tauto].
  apply pad_then_rest in E as [Eh E]; [| lia | lia | apply Hsep; tauto].
  apply pad_then_rest in E as [Em E]; [| lia | lia | apply Hsep; tauto].
  apply pad_then_rest in E as [Es E]; [| lia | lia | apply Hsep; tauto].
  apply pad_then_rest in E as [Ems _]; [| lia | lia | apply Hsep; tauto].
  assert (Er : r = r') by (by apply time_of_day_inj).
  assert (Ed : t / Date.ms_per_day = t' / Date.ms_per_day)
    by (apply civil_inj; congruence).
  rewrite (Z.div_mod t Date.ms_per_day), (Z.div_mod t' Date.ms_per_day) by done.
  fold r r'. by rewrite Ed, Er.
Qed.

(** ** The round trip of the defaults *)

(** C7, amended. For each of the three documents, a read when the file does
    not exist yields the default. The gallery and hero defaults, written
    back at any later time, are read back unchanged. The status default
    written back is read back with the same [status] and [notice] and with
    [lastUpdated] set to the time of the write: it is the record that was
    read exactly when the clock has not moved in between. *)
Theorem default_documents_round_trip (w : world) (before_write before_read : N) :
  let w1 := later before_write w in
  (files w !! GALLERY_FILE = None →
   readGallery w = (Ok (JObj [("images", JArr [])]), w))
  ∧ (GALLERY_FILE ∉ faulty w →
     ∃ w2, writeGallery (JObj [("images", JArr [])]) w1
           = (Ok (JObj [("images", JArr [])]), w2)
           ∧ readGallery (later before_read w2)
             = (Ok (JObj [("images", JArr [])]), later before_read w2))
  ∧ (files w !! HERO_BG_FILE = None →
     readHeroBackground w
     = (Ok (JObj [("filename", JNull); ("uploadedAt", JNull)]), w))
  ∧ (HERO_BG_FILE ∉ faulty w →
     ∃ w2, writeHeroBackground (JObj [("filename", JNull); ("uploadedAt", JNull)]) w1
           = (Ok (JObj [("filename", JNull); ("uploadedAt", JNull)]), w2)
           ∧ readHeroBackground (later before_read w2)
             = (Ok (JObj [("filename", JNull); ("uploadedAt", JNull)]),
                later before_read w2))
  ∧ (files w !! DATA_FILE = None →
     readStatus w = (Ok (default_status (clock w)), w))
  ∧ (DATA_FILE ∉ faulty w →
     ∃ w2,
       writeStatus
         [("status", JBool false); ("notice", JStr "");
          ("lastUpdated", JStr (Date.toISOString (clock w)))] w1
       = (Ok (default_status (clock w1)), w2)
       ∧ readStatus (later before_read w2)
         = (Ok (default_status (clock w1)), later before_read w2)
       ∧ (default_status (clock w1) = default_status (clock w) ↔ before_write = 0%N)).
Proof.
  intros w1.
  split; [| split; [| split; [| split; [| split]]]].
  - intros Hg. by rewrite readGallery_run, read_missing.
  - intros Hgok. unfold writeGallery. simpl. rewrite writeFile_done by done.
    eexists. split; [reflexivity |].
    by rewrite readGallery_run, read_written.
  - intros Hh. by rewrite readHeroBackground_run, read_missing.
  - intros Hhok. unfold writeHeroBackground. simpl. rewrite writeFile_done by done.
    eexists. split; [reflexivity |].
    by rewrite readHeroBackground_run, read_written.
  - intros Hs. by rewrite readStatus_run, read_missing.
  - intros Hsok. rewrite writeStatus_run by done. simpl.
    eexists. split; [reflexivity |].
    split; [by apply readStatus_written |].
    split.
    + intros E. unfold default_status in E. injection E as E.
      apply toISOString_inj in E. lia.
    + intros ->. by rewrite Z.add_0_r.
Qed.

Lemma default_documents_round_trip_witness :
  readStatus (World ∅ ∅ 0) = (Ok (default_status 0), World ∅ ∅ 0)
  ∧ ∃ w2,
      writeStatus
        [("status", JBool false); ("notice", JStr "");
         ("lastUpdated", JStr "1970-01-01T00:00:00.000Z")] (later 1 (World ∅ ∅ 0))
      = (Ok (default_status 1), w2)
      ∧ readStatus (later 5 w2) = (Ok (default_status 1), later 5 w2)
      ∧ default_status 1 ≠ default_status 0.
Proof.
  destruct (default_documents_round_trip (World ∅ ∅ 0) 1 5)
    as (_ & _ & _ & _ & Hdefault & Hround).
  split; [apply Hdefault; reflexivity |].
  destruct Hround as (w2 & Hwrite & Hread & Hsame); [apply not_elem_of_empty |].
  exists w2. split; [exact Hwrite |]. split; [exact Hread |].
  intros E. apply Hsame in E. discriminate E.
Defined.
